(** * Location tracking hook: model and properties

    A shallow embedding of [src/hooks/useLocationTracking.ts] and of the
    activation gate of its caller, the [DriverLocationTracker] component.

    The hook owns three pieces of React state ([currentLocation],
    [isTracking], [error]) and two refs ([watchIdRef], [intervalRef]).  It
    talks to four collaborators: [navigator.geolocation],
    [navigator.permissions], the timer functions and the [drivers] table of
    the hosted backend.  Every call to a collaborator is appended to a log,
    and the answers of the collaborators during one handler invocation are
    collected in a [World] record, so that every function of the hook is an
    executable state transformer.

    JavaScript numbers are binary64 floats ([PrimFloat.float]); thrown values
    are a small sum type that keeps what the code inspects ([instanceof
    Error], [instanceof GeolocationPositionError], [.message], [.code]).
    Calls to [console] are diagnostics only and are left out.

    Every function of the hook is first given as a whole, run to its end
    against the answers its [await]s receive.  The same code is then cut at
    its [await]s into synchronous segments, so that sessions in which
    handlers interleave can be followed as well; a handler run without
    interruption is the composition of its segments
    ([atomic_as_interleaving]). *)

From Stdlib Require Import String List ZArith Bool Lia.
From Stdlib Require Import Floats.PrimFloat.
Import ListNotations.

Local Open Scope string_scope.
Local Open Scope Z_scope.
Local Open Scope list_scope.

(** ** JavaScript values the code inspects *)

(** A value that can be thrown, rejected with, or passed to an error
    callback. *)
Inductive JsValue : Type :=
| JsError (message : string)      (* [instanceof Error], with its [.message] *)
| JsGeoError (code : Z)           (* [instanceof GeolocationPositionError] *)
| JsObject (tag : string).        (* anything else, e.g. a plain object *)

(** Constants of the [GeolocationPositionError] interface. *)
Definition PERMISSION_DENIED : Z := 1.
Definition POSITION_UNAVAILABLE : Z := 2.
Definition TIMEOUT : Z := 3.

(** Truthiness of a number: [0], [-0] and [NaN] are falsy. *)
Definition truthy_number (x : float) : bool :=
  negb (PrimFloat.eqb x 0%float) && PrimFloat.eqb x x.

(** Truthiness of a nullable number, as in [data.current_latitude && ...]. *)
Definition truthy_nullable (x : option float) : bool :=
  match x with
  | Some v => truthy_number v
  | None => false
  end.

(** Truthiness of an optional string, as in [!driverId]. *)
Definition truthy_string (x : option string) : bool :=
  match x with
  | Some s => negb (String.eqb s "")
  | None => false
  end.

(** ** Data model (lines 4-25) *)

Record LocationData : Type := mkLocationData {
  lat : float;
  lng : float;
  address : option string;
  timestamp : option float
}.

Record GeolocationCoordinates : Type := mkCoords {
  latitude : float;
  longitude : float
}.

Record GeolocationPosition : Type := mkPosition {
  coords : GeolocationCoordinates;
  position_timestamp : float
}.

Record PositionOptions : Type := mkOptions {
  enableHighAccuracy : bool;
  timeout : Z;
  maximumAge : Z
}.

Inductive PermissionState : Type := granted | denied | prompt.

(** A row of the [drivers] table, restricted to the selected columns. *)
Record DriverRow : Type := mkRow {
  current_latitude : option float;
  current_longitude : option float;
  last_location_update : option string
}.

(** The state of one hook instance. *)
Record Hook : Type := mkHook {
  currentLocation : option LocationData;
  isTracking : bool;
  error : option string;
  watchIdRef : option Z;
  intervalRef : option Z
}.

(** Calls made to the collaborators, in the order they are made. *)
Inductive Call : Type :=
| PermissionsQuery
| GetCurrentPosition (o : PositionOptions)
| WatchPosition (o : PositionOptions) (id : Z)
| ClearWatch (id : Z)
| SetInterval (ms : Z) (h : Z)
| ClearInterval (h : Z)
| DriversSelect (id : string)
| DriversUpdate (id : string) (la lo : float) (at_time : float).

Record Mem : Type := mkMem {
  hook : Hook;
  log : list Call
}.

(** ** The environment *)

(** Answer of [navigator.permissions.query]. *)
Inductive PermissionAnswer : Type :=
| PermissionStatus (state : PermissionState)
| PermissionRejected (e : JsValue).

(** Answer of the sensor to a one-shot request. *)
Inductive OneShotAnswer : Type :=
| OneShotFix (p : GeolocationPosition)
| OneShotError (e : JsValue).

(** Answer of the backend to [update(...).eq(...)]: the [error] field of the
    response, or a rejected promise. *)
Inductive UpdateAnswer : Type :=
| UpdateResponse (err : option JsValue)
| UpdateRejected (e : JsValue).

(** Answer of the backend to [select(...).eq(...).single()]. *)
Inductive SelectAnswer : Type :=
| SelectResponse (data : option DriverRow) (err : option JsValue)
| SelectRejected (e : JsValue).

Record World : Type := mkWorld {
  has_geolocation : bool;                  (* [navigator.geolocation] is truthy *)
  permissions : option PermissionAnswer;   (* [None]: no ['permissions' in navigator] *)
  oneShot : OneShotAnswer;
  drivers_update : UpdateAnswer;
  drivers_select : SelectAnswer;
  now : float;                             (* [Date.now()] *)
  date_getTime : string -> float;          (* [new Date(s).getTime()] *)
  fresh_watch : Z;                         (* id returned by [watchPosition] *)
  fresh_timer : Z                          (* handle returned by [setInterval] *)
}.

(** ** A monad for handlers: environment, state, log and exceptions *)

Inductive Completion (A : Type) : Type :=
| Normal (a : A)
| Thrown (e : JsValue).
Arguments Normal {A} a.
Arguments Thrown {A} e.

Definition Eff (A : Type) : Type := World -> Mem -> Completion A * Mem.

Definition ret {A} (a : A) : Eff A := fun _ m => (Normal a, m).

Definition bind {A B} (c : Eff A) (k : A -> Eff B) : Eff B :=
  fun w m =>
    match c w m with
    | (Normal a, m') => k a w m'
    | (Thrown e, m') => (Thrown e, m')
    end.

Definition throw {A} (e : JsValue) : Eff A := fun _ m => (Thrown e, m).

Definition try_catch {A} (c : Eff A) (h : JsValue -> Eff A) : Eff A :=
  fun w m =>
    match c w m with
    | (Normal a, m') => (Normal a, m')
    | (Thrown e, m') => h e w m'
    end.

Definition ask {A} (f : World -> A) : Eff A := fun w m => (Normal (f w), m).

Definition read {A} (f : Hook -> A) : Eff A := fun _ m => (Normal (f (hook m)), m).

Definition emit (c : Call) : Eff unit :=
  fun _ m => (Normal tt, mkMem (hook m) (log m ++ [c])).

Definition update (f : Hook -> Hook) : Eff unit :=
  fun _ m => (Normal tt, mkMem (f (hook m)) (log m)).

Declare Scope eff_scope.
Delimit Scope eff_scope with eff.
Notation "x <- c ;; k" := (bind c (fun x => k))
  (at level 61, c at next level, right associativity) : eff_scope.
Notation "c ;; k" := (bind c (fun _ => k))
  (at level 61, right associativity) : eff_scope.
Local Open Scope eff_scope.

(** The memory and the completion a handler ends with. *)
Definition exec {A} (c : Eff A) (w : World) (m : Mem) : Mem := snd (c w m).
Definition outcome {A} (c : Eff A) (w : World) (m : Mem) : Completion A := fst (c w m).

(** Field updates of the hook state. *)
Definition with_currentLocation (l : option LocationData) (h : Hook) : Hook :=
  mkHook l (isTracking h) (error h) (watchIdRef h) (intervalRef h).
Definition with_isTracking (b : bool) (h : Hook) : Hook :=
  mkHook (currentLocation h) b (error h) (watchIdRef h) (intervalRef h).
Definition with_error (e : option string) (h : Hook) : Hook :=
  mkHook (currentLocation h) (isTracking h) e (watchIdRef h) (intervalRef h).
Definition with_watchIdRef (r : option Z) (h : Hook) : Hook :=
  mkHook (currentLocation h) (isTracking h) (error h) r (intervalRef h).
Definition with_intervalRef (r : option Z) (h : Hook) : Hook :=
  mkHook (currentLocation h) (isTracking h) (error h) (watchIdRef h) r.

(** State setters ([useState]) and ref assignments ([useRef]). *)
Definition setCurrentLocation (l : option LocationData) : Eff unit :=
  update (with_currentLocation l).
Definition setIsTracking (b : bool) : Eff unit :=
  update (with_isTracking b).
Definition setError (e : option string) : Eff unit :=
  update (with_error e).
Definition set_watchIdRef (r : option Z) : Eff unit :=
  update (with_watchIdRef r).
Definition set_intervalRef (r : option Z) : Eff unit :=
  update (with_intervalRef r).

(** ** Messages *)

Definition msg_unsupported : string :=
  "Geolocation is not supported by this browser. Please use a modern browser with location support.".
Definition msg_blocked : string :=
  "Location permission is blocked. Please enable location access in your browser settings (address bar → location icon → Allow) and try again.".
Definition msg_unavailable : string :=
  "Location information is unavailable. Please check your device GPS/WiFi settings and ensure you are in an area with good signal.".
Definition msg_timed_out : string :=
  "Location request timed out. Please try again in an area with better GPS signal.".
Definition msg_unknown : string :=
  "An unknown error occurred while requesting location".
Definition msg_revoked : string :=
  "Location permission was revoked. Please re-enable location access to continue tracking.".
Definition msg_signal_lost : string :=
  "Location signal lost. Please check your GPS/WiFi connection.".
Definition msg_retrying : string :=
  "Location tracking timed out. Retrying...".
Definition msg_track_failed : string := "Failed to track location".
Definition msg_update_failed : string := "Failed to update location".
Definition msg_start_failed : string := "Failed to start location tracking".

(** The texts of the [TypeError] an engine throws when a method is read from
    a [navigator.geolocation] that is not there (the wording is the
    engine's; the code never compares it). *)
Definition msg_no_clearWatch : string :=
  "Cannot read properties of undefined (reading 'clearWatch')".
Definition msg_no_watchPosition : string :=
  "Cannot read properties of undefined (reading 'watchPosition')".

(** [err instanceof Error ? err.message : fallback] *)
Definition message_or (fallback : string) (err : JsValue) : string :=
  match err with
  | JsError m => m
  | _ => fallback
  end.

(** ** The hook *)

Section Hook.

Variable driverId : option string.

(** The id sent to the backend once [driverId] is known to be truthy. *)
Definition driver_key : string :=
  match driverId with
  | Some s => s
  | None => ""
  end.

(** [updateDriverLocation], lines 54-82. *)
Definition updateDriverLocation (la lo : float) : Eff unit :=
  if negb (truthy_string driverId) then ret tt
  else
    try_catch
      (t <- ask now ;;
       emit (DriversUpdate driver_key la lo t) ;;
       r <- ask drivers_update ;;
       match r with
       | UpdateRejected e => throw e
       | UpdateResponse (Some e) => throw e
       | UpdateResponse None => ret tt
       end)
      (fun err => setError (Some (message_or msg_update_failed err))).

Definition oneShotOptions : PositionOptions := mkOptions true 10000 30000.
Definition watchOptions : PositionOptions := mkOptions true 10000 5000.
Definition pollPeriod : Z := 10000.

(** The error callback handed to the sensor, lines 94-112: the value the
    promise is rejected with. *)
Definition getCurrentPosition_rejection (err : JsValue) : JsValue :=
  match err with
  | JsGeoError code =>
      if code =? PERMISSION_DENIED then JsError msg_blocked
      else if code =? POSITION_UNAVAILABLE then JsError msg_unavailable
      else if code =? TIMEOUT then JsError msg_timed_out
      else JsError msg_unknown
  | _ => err
  end.

(** [getCurrentPosition], lines 85-120: the promise resolves ([Normal]) or
    rejects ([Thrown]). *)
Definition getCurrentPosition : Eff GeolocationPosition :=
  geo <- ask has_geolocation ;;
  if negb geo then throw (JsError msg_unsupported)
  else
    emit (GetCurrentPosition oneShotOptions) ;;
    r <- ask oneShot ;;
    match r with
    | OneShotFix p => ret p
    | OneShotError err => throw (getCurrentPosition_rejection err)
    end.

Definition locationOfPosition (p : GeolocationPosition) : LocationData :=
  mkLocationData (latitude (coords p)) (longitude (coords p)) None
                 (Some (position_timestamp p)).

(** Success callback of [watchPosition], lines 162-172.  The promise of
    [updateDriverLocation] is not awaited; it never rejects. *)
Definition watch_onSuccess (p : GeolocationPosition) : Eff unit :=
  let newLocationData := locationOfPosition p in
  setCurrentLocation (Some newLocationData) ;;
  updateDriverLocation (lat newLocationData) (lng newLocationData).

(** Error callback of [watchPosition], lines 173-193. *)
Definition watch_errorMessage (err : JsValue) : string :=
  match err with
  | JsGeoError code =>
      if code =? PERMISSION_DENIED then msg_revoked
      else if code =? POSITION_UNAVAILABLE then msg_signal_lost
      else if code =? TIMEOUT then msg_retrying
      else msg_track_failed
  | _ => msg_track_failed
  end.

Definition watch_onError (err : JsValue) : Eff unit :=
  let errorMessage := watch_errorMessage err in
  setError (Some errorMessage) ;;
  setIsTracking false.

(** Callback of [setInterval], lines 203-218. *)
Definition interval_onTick : Eff unit :=
  try_catch
    (position <- getCurrentPosition ;;
     let locationData := locationOfPosition position in
     setCurrentLocation (Some locationData) ;;
     updateDriverLocation (lat locationData) (lng locationData))
    (fun _ => ret tt).

(** The permission check of [startTracking], lines 135-144: the inner
    [try] encloses both the query and the [throw] for a denied state. *)
Definition checkPermission : Eff unit :=
  perms <- ask permissions ;;
  match perms with
  | None => ret tt
  | Some answer =>
      try_catch
        (emit PermissionsQuery ;;
         match answer with
         | PermissionRejected e => throw e
         | PermissionStatus denied => throw (JsError msg_blocked)
         | PermissionStatus _ => ret tt
         end)
        (fun permErr => ret tt)
  end.

(** Body of the [try] of [startTracking], lines 127-220. *)
Definition startTracking_try : Eff unit :=
  setError None ;;
  geo <- ask has_geolocation ;;
  (if negb geo then throw (JsError msg_unsupported) else ret tt) ;;
  checkPermission ;;
  position <- getCurrentPosition ;;
  let locationData := locationOfPosition position in
  setCurrentLocation (Some locationData) ;;
  updateDriverLocation (lat locationData) (lng locationData) ;;
  id <- ask fresh_watch ;;
  emit (WatchPosition watchOptions id) ;;
  set_watchIdRef (Some id) ;;
  h <- ask fresh_timer ;;
  emit (SetInterval pollPeriod h) ;;
  set_intervalRef (Some h) ;;
  setIsTracking true.

(** [startTracking], lines 123-226. *)
Definition startTracking : Eff unit :=
  try_catch startTracking_try
    (fun err =>
       setError (Some (message_or msg_start_failed err)) ;;
       setIsTracking false).

(** [stopTracking], lines 229-242.  Line 231 reads [clearWatch] from
    [navigator.geolocation] without a test: when a watch id is held and the
    object is missing, the function throws there, before anything is
    cancelled or reset. *)
Definition stopTracking : Eff unit :=
  w <- read watchIdRef ;;
  match w with
  | Some id =>
      geo <- ask has_geolocation ;;
      if negb geo then throw (JsError msg_no_clearWatch)
      else emit (ClearWatch id) ;; set_watchIdRef None
  | None => ret tt
  end ;;
  i <- read intervalRef ;;
  match i with
  | Some h => emit (ClearInterval h) ;; set_intervalRef None
  | None => ret tt
  end ;;
  setIsTracking false ;;
  setError None.

(** [updateLocation], lines 245-254. *)
Definition updateLocation (la lo : float) : Eff unit :=
  t <- ask now ;;
  let locationData := mkLocationData la lo None (Some t) in
  setCurrentLocation (Some locationData) ;;
  updateDriverLocation la lo.

(** The fix built from a stored row, lines 41-45 and 282-286. *)
Definition locationOfRow (w : World) (la lo : float) (row : DriverRow) : LocationData :=
  mkLocationData la lo None
    (Some (match last_location_update row with
           | Some s => if negb (String.eqb s "") then date_getTime w s else now w
           | None => now w
           end)).

(** The guarded write shared by both read-back paths, lines 40-47 and
    281-288. *)
Definition acceptRow (row : DriverRow) : Eff unit :=
  if truthy_nullable (current_latitude row) && truthy_nullable (current_longitude row)
  then
    match current_latitude row, current_longitude row with
    | Some la, Some lo =>
        w <- ask (fun w => w) ;;
        setCurrentLocation (Some (locationOfRow w la lo row))
    | _, _ => ret tt
    end
  else ret tt.

(** [fetchCurrentLocation], lines 28-51. *)
Definition fetchCurrentLocation : Eff unit :=
  if negb (truthy_string driverId) then ret tt
  else
    try_catch
      (emit (DriversSelect driver_key) ;;
       r <- ask drivers_select ;;
       match r with
       | SelectRejected e => throw e
       | SelectResponse _ (Some e) => throw e
       | SelectResponse None None =>
           throw (JsError "Cannot read properties of null")
       | SelectResponse (Some data) None => acceptRow data
       end)
      (fun _ => ret tt).

(** [driverId && driverId !== 'all'], lines 258 and 265. *)
Definition specific_driver : bool :=
  match driverId with
  | Some s => negb (String.eqb s "") && negb (String.eqb s "all")
  | None => false
  end.

(** The mount effect, lines 257-261. *)
Definition onMount : Eff unit :=
  if specific_driver then fetchCurrentLocation else ret tt.

(** The handler of the realtime subscription, lines 279-289; the
    subscription exists only for a specific driver (line 265). *)
Definition onRealtimeUpdate (payload_new : DriverRow) : Eff unit :=
  if specific_driver then acceptRow payload_new else ret tt.

End Hook.

(** ** The caller: [DriverLocationTracker] *)

(** [const canTrack = driverId && driverId !== 'all'], line 25 of the
    component; there [driverId] is a plain string. *)
Definition canTrack (driverId : string) : bool :=
  negb (String.eqb driverId "") && negb (String.eqb driverId "all").

Inductive Control : Type :=
| StartButton (disabled : bool)     (* [onClick={handleStartTracking}] *)
| StopButton.                       (* [onClick={handleStopTracking}] *)

Definition is_denied (p : option PermissionState) : bool :=
  match p with
  | Some denied => true
  | _ => false
  end.

(** The action buttons, lines 183-205 of the component: nothing is rendered
    unless [canTrack]. *)
Definition actionButtons (driverId : string) (tracking hasPermission : bool)
    (permissionStatus : option PermissionState) : option Control :=
  if canTrack driverId then
    Some (if negb tracking
          then StartButton (negb hasPermission || is_denied permissionStatus)
          else StopButton)
  else None.

(** ** Sessions: sequences of handler invocations *)

Definition initialHook : Hook := mkHook None false None None None.
Definition initialMem : Mem := mkMem initialHook [].

Inductive Event : Type :=
| Mount
| Activate                              (* [startTracking()] *)
| Deactivate                            (* [stopTracking()], also on unmount *)
| WatchFix (p : GeolocationPosition)    (* the subscription delivers a fix *)
| WatchFailure (e : JsValue)            (* the subscription reports an error *)
| Tick                                  (* the interval fires *)
| ManualUpdate (la lo : float)          (* [updateLocation(lat, lng)] *)
| Realtime (row : DriverRow).           (* the backend pushes a row change *)

Definition handler (driverId : option string) (ev : Event) : Eff unit :=
  match ev with
  | Mount => onMount driverId
  | Activate => startTracking driverId
  | Deactivate => stopTracking
  | WatchFix p => watch_onSuccess driverId p
  | WatchFailure e => watch_onError e
  | Tick => interval_onTick driverId
  | ManualUpdate la lo => updateLocation driverId la lo
  | Realtime row => onRealtimeUpdate driverId row
  end.

(** Subscriptions and timers that were started and not cancelled since. *)
Definition live_watches (l : list Call) : list Z :=
  fold_left (fun acc c =>
               match c with
               | WatchPosition _ id => id :: acc
               | ClearWatch id => remove Z.eq_dec id acc
               | _ => acc
               end) l [].

Definition live_timers (l : list Call) : list Z :=
  fold_left (fun acc c =>
               match c with
               | SetInterval _ h => h :: acc
               | ClearInterval h => remove Z.eq_dec h acc
               | _ => acc
               end) l [].

Definition nonempty {A} (l : list A) : bool :=
  match l with
  | [] => false
  | _ :: _ => true
  end.

(** A callback can only fire while something is registered to fire it. *)
Definition enabled (ev : Event) (m : Mem) : bool :=
  match ev with
  | WatchFix _ | WatchFailure _ => nonempty (live_watches (log m))
  | Tick => nonempty (live_timers (log m))
  | _ => true
  end.

Definition step (driverId : option string) (m : Mem) (x : World * Event) : Mem :=
  if enabled (snd x) m then exec (handler driverId (snd x)) (fst x) m else m.

Definition run (driverId : option string) (evs : list (World * Event)) : Mem :=
  fold_left (step driverId) evs initialMem.

(** ** Suspension points

    The handlers above run every [async] function to its end.  In the
    browser an [async] function gives the event loop a chance at each
    [await] on a collaborator, and other handlers may run before it resumes.
    The definitions below cut the same code at these awaits: a segment is
    what runs synchronously, and it returns the work it leaves suspended. *)

Inductive Pending : Type :=
| StartAwaitsPermission     (* [startTracking] at line 137 *)
| StartAwaitsFix            (* [startTracking] at line 148 *)
| StartAwaitsWrite          (* [startTracking] at line 157 *)
| TickAwaitsFix             (* the interval callback at line 206 *)
| WriteAwaitsAnswer         (* [updateDriverLocation] at line 63, its caller
                               having nothing left to do (lines 171, 214, 253) *)
| FetchAwaitsRow.           (* [fetchCurrentLocation] at line 32 *)

Section Segments.

Variable driverId : option string.

(** [getCurrentPosition] up to the call of the sensor, lines 86-92. *)
Definition requestPosition : Eff unit :=
  geo <- ask has_geolocation ;;
  if negb geo then throw (JsError msg_unsupported)
  else emit (GetCurrentPosition oneShotOptions).

(** [getCurrentPosition] once the sensor has answered, lines 93-112. *)
Definition positionAnswered : Eff GeolocationPosition :=
  r <- ask oneShot ;;
  match r with
  | OneShotFix p => ret p
  | OneShotError err => throw (getCurrentPosition_rejection err)
  end.

(** [updateDriverLocation] up to its await, lines 55-70; the result tells
    whether a request is in flight. *)
Definition beginWrite (la lo : float) : Eff bool :=
  if negb (truthy_string driverId) then ret false
  else
    t <- ask now ;;
    emit (DriversUpdate (driver_key driverId) la lo t) ;;
    ret true.

(** [updateDriverLocation] after its await, lines 72-81. *)
Definition endWrite : Eff unit :=
  try_catch
    (r <- ask drivers_update ;;
     match r with
     | UpdateRejected e => throw e
     | UpdateResponse (Some e) => throw e
     | UpdateResponse None => ret tt
     end)
    (fun err => setError (Some (message_or msg_update_failed err))).

(** The [catch] of [startTracking], lines 221-225. *)
Definition startTracking_catch (err : JsValue) : Eff (list Pending) :=
  setError (Some (message_or msg_start_failed err)) ;;
  setIsTracking false ;;
  ret [].

(** The last stretch of [startTracking], lines 159-220.  Line 161 reads
    [watchPosition] from [navigator.geolocation], which was there when the
    function was called; should it be gone when the function resumes, the
    read throws and the [catch] runs. *)
Definition startTracking_finish : Eff (list Pending) :=
  geo <- ask has_geolocation ;;
  (if negb geo then throw (JsError msg_no_watchPosition) else ret tt) ;;
  id <- ask fresh_watch ;;
  emit (WatchPosition watchOptions id) ;;
  set_watchIdRef (Some id) ;;
  h <- ask fresh_timer ;;
  emit (SetInterval pollPeriod h) ;;
  set_intervalRef (Some h) ;;
  setIsTracking true ;;
  ret [].

(** [startTracking] from the call to its first await, lines 124-148. *)
Definition startTracking_called : Eff (list Pending) :=
  try_catch
    (setError None ;;
     geo <- ask has_geolocation ;;
     (if negb geo then throw (JsError msg_unsupported) else ret tt) ;;
     perms <- ask permissions ;;
     match perms with
     | Some _ => emit PermissionsQuery ;; ret [StartAwaitsPermission]
     | None => requestPosition ;; ret [StartAwaitsFix]
     end)
    startTracking_catch.

(** [startTracking] from the answer of the permission query to the next
    await, lines 137-148. *)
Definition startTracking_permissionAnswered : Eff (list Pending) :=
  try_catch
    (try_catch
       (perms <- ask permissions ;;
        match perms with
        | Some (PermissionRejected e) => throw e
        | Some (PermissionStatus denied) => throw (JsError msg_blocked)
        | _ => ret tt
        end)
       (fun permErr => ret tt) ;;
     requestPosition ;;
     ret [StartAwaitsFix])
    startTracking_catch.

(** [startTracking] from the answer of the sensor to the next await,
    lines 148-157.  Without a [driverId] the write returns at once and the
    function runs on to its end. *)
Definition startTracking_fixAnswered : Eff (list Pending) :=
  try_catch
    (position <- positionAnswered ;;
     let locationData := locationOfPosition position in
     setCurrentLocation (Some locationData) ;;
     inflight <- beginWrite (lat locationData) (lng locationData) ;;
     if inflight then ret [StartAwaitsWrite] else startTracking_finish)
    startTracking_catch.

(** [startTracking] from the answer of the backend to its end. *)
Definition startTracking_writeAnswered : Eff (list Pending) :=
  try_catch (endWrite ;; startTracking_finish) startTracking_catch.

(** Storing a fix and starting its write, as the subscription callback
    (lines 164-171) and [updateLocation] (lines 246-253) do. *)
Definition storeAndWrite (l : LocationData) : Eff (list Pending) :=
  setCurrentLocation (Some l) ;;
  inflight <- beginWrite (lat l) (lng l) ;;
  ret (if inflight then [WriteAwaitsAnswer] else []).

Definition updateLocation_called (la lo : float) : Eff (list Pending) :=
  t <- ask now ;;
  storeAndWrite (mkLocationData la lo None (Some t)).

(** The interval callback up to its await, lines 204-206, and from the
    answer of the sensor on, lines 206-217. *)
Definition interval_called : Eff (list Pending) :=
  try_catch (requestPosition ;; ret [TickAwaitsFix]) (fun _ => ret []).

Definition interval_fixAnswered : Eff (list Pending) :=
  try_catch
    (position <- positionAnswered ;;
     storeAndWrite (locationOfPosition position))
    (fun _ => ret []).

(** [fetchCurrentLocation] up to its await and after it. *)
Definition fetch_called : Eff (list Pending) :=
  if negb (truthy_string driverId) then ret []
  else emit (DriversSelect (driver_key driverId)) ;; ret [FetchAwaitsRow].

Definition fetch_answered : Eff (list Pending) :=
  try_catch
    (r <- ask drivers_select ;;
     match r with
     | SelectRejected e => throw e
     | SelectResponse _ (Some e) => throw e
     | SelectResponse None None =>
         throw (JsError "Cannot read properties of null")
     | SelectResponse (Some data) None => acceptRow data
     end ;;
     ret [])
    (fun _ => ret []).

(** The synchronous segment an event starts with. *)
Definition called (ev : Event) : Eff (list Pending) :=
  match ev with
  | Mount => if specific_driver driverId then fetch_called else ret []
  | Activate => startTracking_called
  | Deactivate => stopTracking ;; ret []
  | WatchFix p => storeAndWrite (locationOfPosition p)
  | WatchFailure e => watch_onError e ;; ret []
  | Tick => interval_called
  | ManualUpdate la lo => updateLocation_called la lo
  | Realtime row => onRealtimeUpdate driverId row ;; ret []
  end.

(** The synchronous segment a suspended piece of work resumes with. *)
Definition resumed (p : Pending) : Eff (list Pending) :=
  match p with
  | StartAwaitsPermission => startTracking_permissionAnswered
  | StartAwaitsFix => startTracking_fixAnswered
  | StartAwaitsWrite => startTracking_writeAnswered
  | TickAwaitsFix => interval_fixAnswered
  | WriteAwaitsAnswer => endWrite ;; ret []
  | FetchAwaitsRow => fetch_answered
  end.

End Segments.

(** A session with its suspended work. *)
Record Session : Type := mkSession {
  mem : Mem;
  pending : list Pending
}.

Inductive Action : Type :=
| Fire (ev : Event)        (* an event starts a handler *)
| Resume (i : nat).        (* the [i]-th suspended piece of work is answered *)

Definition land (rest : list Pending) (r : Completion (list Pending) * Mem) : Session :=
  match r with
  | (Normal ps, m') => mkSession m' (rest ++ ps)
  | (Thrown _, m') => mkSession m' rest
  end.

Definition act (driverId : option string) (s : Session) (x : World * Action) : Session :=
  match snd x with
  | Fire ev =>
      if enabled ev (mem s)
      then land (pending s) (called driverId ev (fst x) (mem s))
      else s
  | Resume i =>
      match nth_error (pending s) i with
      | Some p =>
          land (firstn i (pending s) ++ skipn (S i) (pending s))
               (resumed driverId p (fst x) (mem s))
      | None => s
      end
  end.

Definition interleaved (driverId : option string) (xs : list (World * Action)) : Session :=
  fold_left (act driverId) xs (mkSession initialMem []).

(** [run] and [interleaved] are the sessions of a component whose
    [driverId] prop never changes.  When the prop changes, the functions of
    the hook are made anew ([useCallback] with [driverId] among the
    dependencies), but what was started earlier keeps the functions of its
    own render: the callbacks of a subscription and of a timer write for the
    [driverId] of the activation that registered them, and a suspended
    handler resumes with the [driverId] it was called with.  In the sessions
    below every action therefore comes with the [driverId] of the closure
    that runs it.  Any tagging is allowed, which covers every session of the
    component and more. *)
Definition act_as (s : Session) (x : option string * (World * Action)) : Session :=
  act (fst x) s (snd x).

Definition rendered (xs : list (option string * (World * Action))) : Session :=
  fold_left act_as xs (mkSession initialMem []).

(** The [driverId]s of the closures that ran in a session. *)
Definition closure_ids (xs : list (option string * (World * Action)))
    : list (option string) :=
  map fst xs.

(** An event whose handler is not interrupted: it fires, and what it
    suspends is answered at once, in the same environment.  No segment
    suspends more than one piece of work and no handler has more than four
    segments. *)
Definition atomically (x : World * Event) : list (World * Action) :=
  [(fst x, Fire (snd x)); (fst x, Resume 0); (fst x, Resume 0); (fst x, Resume 0)].

(** ** Classifying calls *)

Definition is_sensor_call (c : Call) : bool :=
  match c with
  | GetCurrentPosition _ | WatchPosition _ _ | ClearWatch _ => true
  | _ => false
  end.

Definition is_sink_call (c : Call) : bool :=
  match c with
  | DriversUpdate _ _ _ _ => true
  | _ => false
  end.

Definition is_producer_start (c : Call) : bool :=
  match c with
  | WatchPosition _ _ | SetInterval _ _ => true
  | _ => false
  end.



(** ** Sample environment *)

Definition sample_fix : GeolocationPosition :=
  mkPosition (mkCoords 12.5%float 77.5%float) 1000%float.

Definition sample_world : World :=
  mkWorld true (Some (PermissionStatus granted)) (OneShotFix sample_fix)
          (UpdateResponse None) (SelectResponse None None)
          2000%float (fun _ => 1500%float) 7 9.

(** The backend refuses the write. *)
Definition failing_sink_world : World :=
  mkWorld true (Some (PermissionStatus granted)) (OneShotFix sample_fix)
          (UpdateResponse (Some (JsError "row level security")))
          (SelectResponse None None)
          2000%float (fun _ => 1500%float) 7 9.

(** A browser without [navigator.geolocation]. *)
Definition no_sensor_world : World :=
  mkWorld false None (OneShotError (JsObject "unreachable"))
          (UpdateResponse None) (SelectResponse None None)
          2000%float (fun _ => 1500%float) 7 9.

(** Permission is denied: the query reports it and the sensor refuses. *)
Definition denied_world : World :=
  mkWorld true (Some (PermissionStatus denied))
          (OneShotError (JsGeoError PERMISSION_DENIED))
          (UpdateResponse None) (SelectResponse None None)
          2000%float (fun _ => 1500%float) 7 9.

(** The backend holds a position on the equator. *)
Definition equator_row : DriverRow :=
  mkRow (Some 0%float) (Some 77.5%float) (Some "2024-01-01T00:00:00.000Z").

Definition equator_world : World :=
  mkWorld true (Some (PermissionStatus granted)) (OneShotFix sample_fix)
          (UpdateResponse None) (SelectResponse (Some equator_row) None)
          2000%float (fun _ => 1500%float) 7 9.

(** The error the backend answers an update with, if any: a rejected promise
    and a response carrying an [error] both end in the [catch] of
    [updateDriverLocation]. *)
Definition update_failure (w : World) : option JsValue :=
  match drivers_update w with
  | UpdateRejected e => Some e
  | UpdateResponse r => r
  end.

(** The log once the permission check of [startTracking] is over: the query
    is made whenever the capability exists. *)
Definition log_after_check (w : World) (m : Mem) : list Call :=
  match permissions w with
  | Some _ => log m ++ [PermissionsQuery]
  | None => log m
  end.


(** [stopTracking] throws: a watch id is held and [navigator.geolocation]
    is missing. *)
Definition stop_blocked (w : World) (h : Hook) : bool :=
  match watchIdRef h with
  | Some _ => negb (has_geolocation w)
  | None => false
  end.

(** The calls [stopTracking] makes from a given hook state, when it does
    not throw. *)
Definition cancellations (h : Hook) : list Call :=
  match watchIdRef h with
  | Some id => [ClearWatch id]
  | None => []
  end ++
  match intervalRef h with
  | Some t => [ClearInterval t]
  | None => []
  end.

(** A later activation, for which the browser hands out new handles. *)
Definition second_world : World :=
  mkWorld true (Some (PermissionStatus granted)) (OneShotFix sample_fix)
          (UpdateResponse None) (SelectResponse None None)
          3000%float (fun _ => 1500%float) 8 10.

(** ** Vocabulary for the properties of whole sessions *)

Definition is_fix (a : OneShotAnswer) : bool :=
  match a with
  | OneShotFix _ => true
  | OneShotError _ => false
  end.

Definition opt_list {A : Type} (o : option A) : list A :=
  match o with
  | Some x => [x]
  | None => []
  end.



(** Events that neither start nor stop tracking. *)
Definition is_steady (ev : Event) : bool :=
  match ev with
  | Activate | Deactivate => false
  | _ => true
  end.

(** ** Vocabulary for sessions with one activation *)








(** What a call of the hook for [driverId] may look like. *)
Definition call_allowed (driverId : option string) (c : Call) : Prop :=
  match c with
  | GetCurrentPosition o => o = oneShotOptions
  | WatchPosition o _ => o = watchOptions
  | SetInterval ms _ => ms = 10000
  | DriversUpdate id _ _ _ =>
      truthy_string driverId = true /\ driverId = Some id
  | DriversSelect id =>
      specific_driver driverId = true /\ driverId = Some id
  | PermissionsQuery | ClearWatch _ | ClearInterval _ => True
  end.

(** The same for a session whose [driverId] changes: the call is allowed
    for one of the [driverId]s the closures of the session were made for. *)
Definition call_allowed_in (ids : list (option string)) (c : Call) : Prop :=
  exists driverId, In driverId ids /\ call_allowed driverId c.

(** ** The permission manager: [LocationPermissionManager]

    The component of [part_001], lines 1-234.  It keeps the permission
    status it believes in and an error text, and it is the only place
    besides the hook that calls the sensor; its calls are logged like the
    hook's. *)

Module PermissionManager.

Record State : Type := mkState {
  permissionStatus : option PermissionState;
  error : option string;
  calls : list Call;
  listening : bool            (* a ['change'] listener is registered, line 48 *)
}.

Definition initial : State := mkState None None [] false.

Definition set_status (p : option PermissionState) (s : State) : State :=
  mkState p (error s) (calls s) (listening s).
Definition set_error (e : option string) (s : State) : State :=
  mkState (permissionStatus s) e (calls s) (listening s).
Definition add_call (c : Call) (s : State) : State :=
  mkState (permissionStatus s) (error s) (calls s ++ [c]) (listening s).
Definition listen (s : State) : State :=
  mkState (permissionStatus s) (error s) (calls s) true.

Definition dquote : string := String (Ascii.ascii_of_nat 34) EmptyString.

Definition msg_unsupported : string :=
  "Geolocation is not supported by this browser".
Definition msg_check_failed : string :=
  "Failed to check location permission status".
Definition msg_blocked_again : string :=
  String.append
    "Location permission is blocked. Please enable location access in your browser settings and click "
    (String.append dquote
       (String.append "Request Permission Again" (String.append dquote "."))).
Definition msg_unavailable : string :=
  "Location information is unavailable. Please check your device GPS/WiFi settings.".
Definition msg_timed_out : string :=
  "Location request timed out. Please try again.".
Definition msg_unknown : string :=
  "An unknown error occurred while requesting location".
Definition msg_request_failed : string :=
  "Failed to request location permission".

(** The options of the request at lines 87-91. *)
Definition requestOptions : PositionOptions := mkOptions false 10000 300000.

(** [checkPermissionStatus], lines 35-59. *)
Definition checkPermissionStatus (w : World) (s : State) : State :=
  let s := set_error None s in
  if negb (has_geolocation w) then set_error (Some msg_unsupported) s
  else
    match permissions w with
    | Some answer =>
        let s := add_call PermissionsQuery s in
        match answer with
        | PermissionStatus st => listen (set_status (Some st) s)
        | PermissionRejected _ => set_error (Some msg_check_failed) s
        end
    | None => set_status (Some prompt) s
    end.

(** The listener registered at line 48. *)
Definition onChange (st : PermissionState) (s : State) : State :=
  if listening s then set_status (Some st) s else s.

(** The [catch] of [requestPermission], lines 96-117. *)
Definition requestPermission_catch (err : JsValue) (s : State) : State :=
  match err with
  | JsGeoError code =>
      if code =? PERMISSION_DENIED
      then set_error (Some msg_blocked) (set_status (Some denied) s)
      else if code =? POSITION_UNAVAILABLE then set_error (Some msg_unavailable) s
      else if code =? TIMEOUT then set_error (Some msg_timed_out) s
      else set_error (Some msg_unknown) s
  | _ => set_error (Some msg_request_failed) s
  end.

(** The request to the sensor and what follows it, lines 86-95. *)
Definition askSensor (w : World) (s : State) : State :=
  let s := add_call (GetCurrentPosition requestOptions) s in
  match oneShot w with
  | OneShotFix _ => set_status (Some granted) s
  | OneShotError err => requestPermission_catch err s
  end.

(** [requestPermission], lines 61-118.  For a denied permission the inner
    [try] returns (line 78); a rejected query is caught and only logged. *)
Definition requestPermission (w : World) (s : State) : State :=
  let s := set_error None s in
  if negb (has_geolocation w)
  then set_status (Some denied) (set_error (Some msg_unsupported) s)
  else
    match permissions w with
    | Some answer =>
        let s := add_call PermissionsQuery s in
        match answer with
        | PermissionStatus denied =>
            set_status (Some denied) (set_error (Some msg_blocked_again) s)
        | PermissionStatus _ => askSensor w s
        | PermissionRejected _ => askSensor w s
        end
    | None => askSensor w s
    end.

Definition is_granted (p : PermissionState) : bool :=
  match p with
  | granted => true
  | _ => false
  end.

(** What the effect of lines 24-28 passes to [onPermissionChange]; nothing
    while the status is still [null]. *)
Definition reported (s : State) : option bool :=
  option_map is_granted (permissionStatus s).

(** The buttons, lines 191-211: the label of the request button and whether
    the refresh button is there. *)
Definition requestButton (s : State) : option string :=
  match permissionStatus s with
  | Some granted => None
  | Some denied => Some "Request Permission Again"
  | _ => Some "Grant Location Access"
  end.

Definition refreshButton (s : State) : bool := is_denied (permissionStatus s).

End PermissionManager.

(** ** The tracker component: [DriverLocationTracker]

    The component of [part_000]: its own permission state, lines 26-66, and
    what it renders from it. *)

Module Tracker.

Record State : Type := mkState {
  permissionStatus : option PermissionState;
  hasPermission : bool;
  listening : bool            (* a ['change'] listener is registered, line 49 *)
}.

Definition initial : State := mkState None false false.

(** [checkPermission], lines 36-63. *)
Definition checkPermission (w : World) (s : State) : State :=
  if negb (has_geolocation w) then mkState (Some denied) false (listening s)
  else
    match permissions w with
    | Some (PermissionStatus st) =>
        mkState (Some st) (PermissionManager.is_granted st) true
    | Some (PermissionRejected _) => mkState (Some denied) false (listening s)
    | None => mkState (Some prompt) false (listening s)
    end.

(** The listener registered at line 49. *)
Definition onChange (st : PermissionState) (s : State) : State :=
  if listening s
  then mkState (Some st) (PermissionManager.is_granted st) true
  else s.

(** [handlePermissionChange], lines 30-32. *)
Definition handlePermissionChange (granted : bool) (s : State) : State :=
  mkState (permissionStatus s) granted (listening s).

(** The manager is rendered unless the status is ['granted'], lines
    177-180. *)
Definition showsManager (s : State) : bool :=
  match permissionStatus s with
  | Some granted => false
  | _ => true
  end.

(** What the manager reports reaches the tracker only while the manager is
    rendered. *)
Definition managerReports (mg : PermissionManager.State) (s : State) : State :=
  if showsManager s then
    match PermissionManager.reported mg with
    | Some g => handlePermissionChange g s
    | None => s
    end
  else s.

(** The start or stop button for the state of the tracker. *)
Definition control (driverId : string) (tracking : bool) (s : State) : option Control :=
  actionButtons driverId tracking (hasPermission s) (permissionStatus s).

End Tracker.

(** The permission query answered ['granted']. *)
Definition answered_granted (w : World) : bool :=
  match permissions w with
  | Some (PermissionStatus granted) => true
  | _ => false
  end.

(** The permission query answered ['denied']. *)
Definition answered_denied (w : World) : bool :=
  match permissions w with
  | Some (PermissionStatus denied) => true
  | _ => false
  end.

(** ** The map: [LiveMapView]

    The marker bookkeeping of [src/components/tracking/LiveMapView.tsx].  The
    map widget is a collaborator: markers and polylines are overlays with an
    identity, created through calls that are logged.  The tracking data come
    from a hook that is not part of these sources and are an input. *)

Module LiveMap.

Record LatLng : Type := mkLatLng {
  lat : float;
  lng : float
}.

(** The fields of [TrackingData] the marker code reads, lines 18-51. *)
Record Driver : Type := mkDriver {
  driver_id : string;
  full_name : string;
  status : string;
  current_latitude : option float;
  current_longitude : option float
}.

Record Booking : Type := mkBooking {
  booking_id : string;
  pickup_latitude : option float;
  pickup_longitude : option float;
  dropoff_latitude : option float;
  dropoff_longitude : option float
}.

Record TrackingData : Type := mkTrackingData {
  driver : Driver;
  booking : option Booking
}.

Inductive MapCall : Type :=
| NewMarker (overlay : nat) (position : LatLng) (icon : string) (size : Z) (title : string)
| ShowPolyline (overlay : nat)        (* [polyline.setMap(map)], line 306 *)
| HideOverlay (overlay : nat)         (* [setMap(null)], lines 203 and 205 *)
| RequestRoute (booking : string) (origin destination : LatLng)
| FitBounds (points : list LatLng)
| SetCenter (c : LatLng)
| SetZoom (z : Z)
| SetMapTypeIdHybrid.

(** The refs and the state the marker code reads and writes.  [next] is the
    identity the next overlay gets. *)
Record View : Type := mkView {
  mapReady : bool;                        (* [mapInstanceRef.current && window.google] *)
  mapLoaded : bool;
  directionsService : bool;               (* [directionsServiceRef.current] is set *)
  markersRef : list (string * nat);       (* a [Map], in insertion order *)
  polylinesRef : list (string * nat);
  next : nat;
  calls : list MapCall
}.

(** [Map.prototype.set]: an existing key keeps its place and gets the new
    value. *)
Fixpoint map_set (k : string) (v : nat) (l : list (string * nat)) : list (string * nat) :=
  match l with
  | [] => [(k, v)]
  | (k', v') :: rest =>
      if String.eqb k' k then (k', v) :: rest else (k', v') :: map_set k v rest
  end.

Definition baseUrl : string := "https://maps.google.com/mapfiles/ms/icons/".

(** [getMarkerIcon], lines 180-195. *)
Definition getMarkerIcon (type status : string) : string :=
  if String.eqb type "driver" then
    if String.eqb status "active"
    then String.append baseUrl "green-dot.png"
    else String.append baseUrl "blue-dot.png"
  else if String.eqb type "pickup" then String.append baseUrl "yellow-dot.png"
  else if String.eqb type "dropoff" then String.append baseUrl "red-dot.png"
  else String.append baseUrl "purple-dot.png".

(** [a && b] on two stored coordinates, and the position built from them
    when the test passes (lines 219-223, 242-246, 263-267). *)
Definition point (la lo : option float) : option LatLng :=
  if truthy_nullable la && truthy_nullable lo then
    match la, lo with
    | Some a, Some b => Some (mkLatLng a b)
    | _, _ => None
    end
  else None.

(** The state of the loop of lines 215-312. *)
Record Loop : Type := mkLoop {
  view : View;
  bounds : list LatLng;                   (* the points [bounds] was extended with *)
  hasValidLocations : bool
}.

(** Creating a marker on the map, recording it and extending the bounds. *)
Definition addMarker (key : string) (position : LatLng) (icon : string) (size : Z)
    (title : string) (st : Loop) : Loop :=
  let v := view st in
  let marker := next v in
  mkLoop
    (mkView (mapReady v) (mapLoaded v) (directionsService v)
            (map_set key marker (markersRef v)) (polylinesRef v)
            (S (next v))
            (calls v ++ [NewMarker marker position icon size title]))
    (bounds st ++ [position])
    true.

Definition add_call (c : MapCall) (v : View) : View :=
  mkView (mapReady v) (mapLoaded v) (directionsService v)
         (markersRef v) (polylinesRef v) (next v) (calls v ++ [c]).

(** The body of the loop, lines 216-311. *)
Definition place (st : Loop) (data : TrackingData) : Loop :=
  let d := driver data in
  let st :=
    match point (current_latitude d) (current_longitude d) with
    | Some position =>
        addMarker (String.append "driver-" (driver_id d)) position
                  (getMarkerIcon "driver" (status d)) 32 (full_name d) st
    | None => st
    end in
  match booking data with
  | None => st
  | Some b =>
      let pickup := point (pickup_latitude b) (pickup_longitude b) in
      let dropoff := point (dropoff_latitude b) (dropoff_longitude b) in
      let st :=
        match pickup with
        | Some position =>
            addMarker (String.append "pickup-" (booking_id b)) position
                      (getMarkerIcon "pickup" "active") 24 "Pickup" st
        | None => st
        end in
      let st :=
        match dropoff with
        | Some position =>
            addMarker (String.append "dropoff-" (booking_id b)) position
                      (getMarkerIcon "dropoff" "active") 24 "Dropoff" st
        | None => st
        end in
      match pickup, dropoff with
      | Some origin, Some destination =>
          if directionsService (view st)
          then mkLoop (add_call (RequestRoute (booking_id b) origin destination) (view st))
                      (bounds st) (hasValidLocations st)
          else st
      | _, _ => st
      end
  end.

(** Lines 203-206: every recorded overlay is taken off the map and both
    maps are emptied. *)
Definition clearOverlays (v : View) : View :=
  mkView (mapReady v) (mapLoaded v) (directionsService v) [] [] (next v)
         (calls v ++ map (fun kv => HideOverlay (snd kv)) (markersRef v)
                  ++ map (fun kv => HideOverlay (snd kv)) (polylinesRef v)).

(** Lines 211-213. *)
Definition filteredData (selectedDriver : string) (trackingData : list TrackingData)
    : list TrackingData :=
  if String.eqb selectedDriver "all" then trackingData
  else filter (fun data => String.eqb (driver_id (driver data)) selectedDriver) trackingData.

(** The centre of line 319, [{ lat: 13.1986, lng: 77.7066 }], as the binary64
    values these literals denote. *)
Definition defaultCenter : LatLng :=
  mkLatLng 0x1.a65aee631f8a1p+3%float 0x1.36d38ef34d6a1p+6%float.

(** [updateMapMarkers], lines 197-323. *)
Definition updateMapMarkers (selectedDriver : string) (trackingData : list TrackingData)
    (v : View) : View :=
  if negb (mapReady v) || negb (mapLoaded v) then v
  else
    let st := fold_left place (filteredData selectedDriver trackingData)
                        (mkLoop (clearOverlays v) [] false) in
    if hasValidLocations st && nonempty (bounds st)
    then add_call (FitBounds (bounds st)) (view st)
    else add_call SetMapTypeIdHybrid
           (add_call (SetZoom 15) (add_call (SetCenter defaultCenter) (view st))).

(** The callback of the route request, lines 297-309. *)
Definition onRouteAnswered (bookingId : string) (ok : bool) (v : View) : View :=
  if ok then
    let polyline := next v in
    mkView (mapReady v) (mapLoaded v) (directionsService v)
           (markersRef v)
           (map_set (String.append "route-" bookingId) polyline (polylinesRef v))
           (S (next v))
           (calls v ++ [ShowPolyline polyline])
  else v.

(** The effect of lines 336-340. *)
Definition markersEffect (selectedDriver : string) (trackingData : list TrackingData)
    (v : View) : View :=
  if mapLoaded v && negb (Nat.eqb (length trackingData) 0)
  then updateMapMarkers selectedDriver trackingData v
  else v.

(** [propSelectedDriver || internalSelectedDriver], line 71. *)
Definition selectedDriver (propSelectedDriver : option string) (internal : string) : string :=
  match propSelectedDriver with
  | Some s => if String.eqb s "" then internal else s
  | None => internal
  end.

(** What the component does to the map after it is loaded. *)
Inductive Op : Type :=
| Update (selected : string) (trackingData : list TrackingData)
| RouteAnswered (bookingId : string) (ok : bool).

Definition apply (v : View) (op : Op) : View :=
  match op with
  | Update selected trackingData => markersEffect selected trackingData v
  | RouteAnswered bookingId ok => onRouteAnswered bookingId ok v
  end.

(** The overlays on the map after a sequence of calls. *)
Definition on_map (l : list MapCall) : list nat :=
  fold_left (fun acc c =>
               match c with
               | NewMarker o _ _ _ _ => o :: acc
               | ShowPolyline o => o :: acc
               | HideOverlay o => remove Nat.eq_dec o acc
               | _ => acc
               end) l [].

(** The overlays the component can still take off the map. *)
Definition recorded (v : View) : list nat :=
  map snd (markersRef v) ++ map snd (polylinesRef v).

(** The points and the keys of the markers a tracking entry gives rise to. *)
Definition points_of (data : TrackingData) : list LatLng :=
  opt_list (point (current_latitude (driver data)) (current_longitude (driver data))) ++
  match booking data with
  | Some b =>
      opt_list (point (pickup_latitude b) (pickup_longitude b)) ++
      opt_list (point (dropoff_latitude b) (dropoff_longitude b))
  | None => []
  end.

Definition keys_of (data : TrackingData) : list string :=
  match point (current_latitude (driver data)) (current_longitude (driver data)) with
  | Some _ => [String.append "driver-" (driver_id (driver data))]
  | None => []
  end ++
  match booking data with
  | Some b =>
      match point (pickup_latitude b) (pickup_longitude b) with
      | Some _ => [String.append "pickup-" (booking_id b)]
      | None => []
      end ++
      match point (dropoff_latitude b) (dropoff_longitude b) with
      | Some _ => [String.append "dropoff-" (booking_id b)]
      | None => []
      end
  | None => []
  end.

Definition is_new_marker (c : MapCall) : bool :=
  match c with
  | NewMarker _ _ _ _ _ => true
  | _ => false
  end.

(** The loop keeps the map and the record of markers in step, as long as
    it meets no key twice. *)
Definition in_step (st : Loop) : Prop :=
  on_map (calls (view st)) = rev (map snd (markersRef (view st))).

(** An overlay that is on the map, is not on record, and is older than
    every overlay still to be created. *)
Definition orphan (n : nat) (v : View) : Prop :=
  In n (on_map (calls v)) /\ ~ In n (recorded v) /\ (n < next v)%nat.

(** The loop creates overlays after [n] only and hides none. *)
Definition younger (n : nat) (st : Loop) : Prop :=
  In n (on_map (calls (view st))) /\
  (n < next (view st))%nat /\
  (forall o, In o (recorded (view st)) -> (n < o)%nat).

(** A loaded map on which nothing was drawn yet. *)
Definition loaded : View := mkView true true true [] [] 0 [].

(** Two rides, one of them without a usable position. *)
Definition sample_data : list TrackingData :=
  [mkTrackingData
     (mkDriver "d1" "Asha" "active" (Some 12.5%float) (Some 77.5%float))
     (Some (mkBooking "b1" (Some 12.25%float) (Some 77.25%float)
                      (Some 12.75%float) (Some 77.75%float)));
   mkTrackingData
     (mkDriver "d2" "Ravi" "busy" (Some 0%float) (Some 77.5%float))
     None].

End LiveMap.

(** ** Loading the map: [initializeMap]

    [initializeMap] of [LiveMapView.tsx], lines 81-179, with the state it
    writes.  The environment says what the function meets on its way: the
    API key, the container element, the loader, the [window.google] object
    and the constructors.  The call of line 161 goes through a ref that
    holds the [updateMapMarkers] of the last render, in which [mapLoaded]
    was still [false] ([initializeMap] runs on mount and from the retry
    button, both with the map not loaded), so it returns at its guard and is
    left out here. *)

Module MapLoader.

Record State : Type := mkState {
  mapError : option string;
  mapLoaded : bool;
  initializationAttempted : bool;
  mapInstance : bool;              (* [mapInstanceRef.current] is set *)
  directions : bool                (* both directions refs are set *)
}.


Definition initial : State := mkState None false false false false.

Definition msg_map_failed : string := "Failed to load map".

(** The [catch], lines 164-174; [mounted] is [true] whenever it runs. *)
Definition failed (error : JsValue) (s : State) : State :=
  mkState (Some (message_or msg_map_failed error)) (mapLoaded s) false
          (mapInstance s) (directions s).









End MapLoader.

(** * Properties *)

(** ** Writing to the sink: [updateDriverLocation] *)

Section Dispatch.

Variable driverId : option string.

(** One equation for the whole function. *)
Lemma updateDriverLocation_eq (la lo : float) (w : World) (m : Mem) :
  updateDriverLocation driverId la lo w m =
  (Normal tt,
   if truthy_string driverId then
     mkMem
       (match update_failure w with
        | Some e => with_error (Some (message_or msg_update_failed e)) (hook m)
        | None => hook m
        end)
       (log m ++ [DriversUpdate (driver_key driverId) la lo (now w)])
   else m).
Proof.
  unfold updateDriverLocation, update_failure.
  destruct (truthy_string driverId); [ | reflexivity ].
  cbn. unfold try_catch, bind, ask, emit. cbn.
  destruct (drivers_update w) as [[e | ] | e]; reflexivity.
Qed.

Lemma getCurrentPosition_fix (p : GeolocationPosition) (w : World) (m : Mem) :
  has_geolocation w = true ->
  oneShot w = OneShotFix p ->
  getCurrentPosition w m =
  (Normal p, mkMem (hook m) (log m ++ [GetCurrentPosition oneShotOptions])).
Proof.
  intros Hgeo Hone. unfold getCurrentPosition, bind, ask, emit.
  rewrite Hgeo. cbn. rewrite Hone. reflexivity.
Qed.

Lemma getCurrentPosition_rejected (err : JsValue) (w : World) (m : Mem) :
  has_geolocation w = true ->
  oneShot w = OneShotError err ->
  getCurrentPosition w m =
  (Thrown (getCurrentPosition_rejection err),
   mkMem (hook m) (log m ++ [GetCurrentPosition oneShotOptions])).
Proof.
  intros Hgeo Hone. unfold getCurrentPosition, bind, ask, emit.
  rewrite Hgeo. cbn. rewrite Hone. reflexivity.
Qed.


(** A one-shot request resolves exactly when the sensor exists and answers
    with a fix. *)
Lemma getCurrentPosition_resolves (w : World) (m : Mem) (p : GeolocationPosition) :
  fst (getCurrentPosition w m) = Normal p ->
  has_geolocation w = true /\ oneShot w = OneShotFix p.
Proof.
  unfold getCurrentPosition, bind, ask, emit.
  destruct (has_geolocation w); cbn; [ | discriminate ].
  destruct (oneShot w) as [q | err]; cbn; [ | discriminate ].
  intros H. injection H as ->. split; reflexivity.
Qed.

Lemma watch_onSuccess_eq (p : GeolocationPosition) (w : World) (m : Mem) :
  watch_onSuccess driverId p w m =
  updateDriverLocation driverId (latitude (coords p)) (longitude (coords p)) w
    (mkMem (with_currentLocation (Some (locationOfPosition p)) (hook m)) (log m)).
Proof. reflexivity. Qed.

Lemma interval_onTick_fix (p : GeolocationPosition) (w : World) (m : Mem) :
  has_geolocation w = true ->
  oneShot w = OneShotFix p ->
  interval_onTick driverId w m =
  updateDriverLocation driverId (latitude (coords p)) (longitude (coords p)) w
    (mkMem (with_currentLocation (Some (locationOfPosition p)) (hook m))
           (log m ++ [GetCurrentPosition oneShotOptions])).
Proof.
  intros Hgeo Hone. unfold interval_onTick, try_catch, bind at 1.
  rewrite (getCurrentPosition_fix p w m Hgeo Hone).
  unfold bind, setCurrentLocation, update. cbn.
  rewrite updateDriverLocation_eq. reflexivity.
Qed.

Lemma interval_onTick_normal (w : World) (m : Mem) :
  outcome (interval_onTick driverId) w m = Normal tt.
Proof.
  unfold outcome, interval_onTick, try_catch, bind at 1.
  destruct (getCurrentPosition w m) as [[p | e] m1]; [ | reflexivity ].
  unfold bind, setCurrentLocation, update. cbn.
  rewrite updateDriverLocation_eq. reflexivity.
Qed.

End Dispatch.

(** ** Fix dispatch (C6, C7, C8) *)



(** C7. When the backend answers an update with an error, the write records
    a message in [error] and changes nothing else of the hook state (so
    [isTracking] keeps its value), and it completes normally, as do both fix
    callbacks in every environment.  The same holds for the fix callbacks
    that made the write, and a fix that arrives afterwards is stored and sent
    like any other. *)
Theorem C7_sink_failure_recorded_not_raised :
  forall (driverId : option string) (p : GeolocationPosition) (e : JsValue)
         (w : World) (m : Mem),
    truthy_string driverId = true ->
    update_failure w = Some e ->
    let failed := exec (watch_onSuccess driverId p) w m in
    (outcome (updateDriverLocation driverId (latitude (coords p)) (longitude (coords p))) w m
       = Normal tt /\
     hook (exec (updateDriverLocation driverId (latitude (coords p)) (longitude (coords p))) w m)
       = with_error (Some (message_or msg_update_failed e)) (hook m)) /\
    (forall p' w' m',
        outcome (watch_onSuccess driverId p') w' m' = Normal tt /\
        outcome (interval_onTick driverId) w' m' = Normal tt) /\
    (error (hook failed) = Some (message_or msg_update_failed e) /\
     isTracking (hook failed) = isTracking (hook m)) /\
    (has_geolocation w = true ->
     oneShot w = OneShotFix p ->
     error (hook (exec (interval_onTick driverId) w m))
       = Some (message_or msg_update_failed e) /\
     isTracking (hook (exec (interval_onTick driverId) w m)) = isTracking (hook m)) /\
    (forall (p' : GeolocationPosition) (w' : World),
        currentLocation (hook (exec (watch_onSuccess driverId p') w' failed))
          = Some (locationOfPosition p') /\
        log (exec (watch_onSuccess driverId p') w' failed)
          = log failed ++ [DriversUpdate (driver_key driverId) (latitude (coords p'))
                                         (longitude (coords p')) (now w')] /\
        isTracking (hook (exec (watch_onSuccess driverId p') w' failed))
          = isTracking (hook m)).
Proof.
  intros driverId p e w m Hid Hfail failed.
  assert (Hfailed : hook failed =
                    with_error (Some (message_or msg_update_failed e))
                      (with_currentLocation (Some (locationOfPosition p)) (hook m))).
  { unfold failed, exec. rewrite watch_onSuccess_eq, updateDriverLocation_eq, Hid, Hfail.
    reflexivity. }
  assert (Hlater : forall p' w',
             exec (watch_onSuccess driverId p') w' failed =
             mkMem
               (match update_failure w' with
                | Some e' =>
                    with_error (Some (message_or msg_update_failed e'))
                      (with_currentLocation (Some (locationOfPosition p')) (hook failed))
                | None => with_currentLocation (Some (locationOfPosition p')) (hook failed)
                end)
               (log failed ++ [DriversUpdate (driver_key driverId) (latitude (coords p'))
                                             (longitude (coords p')) (now w')])).
  { intros p' w'. unfold exec.
    rewrite watch_onSuccess_eq, updateDriverLocation_eq, Hid. reflexivity. }
  split; [ | split; [ | split; [ | split ] ] ].
  - unfold outcome, exec. rewrite updateDriverLocation_eq, Hid, Hfail.
    split; reflexivity.
  - intros p' w' m'. split.
    + unfold outcome. rewrite watch_onSuccess_eq, updateDriverLocation_eq. reflexivity.
    + apply interval_onTick_normal.
  - rewrite Hfailed. split; reflexivity.
  - intros Hgeo Hone. unfold exec.
    rewrite (interval_onTick_fix driverId p w m Hgeo Hone).
    rewrite updateDriverLocation_eq, Hid, Hfail. split; reflexivity.
  - intros p' w'. rewrite Hlater, Hfailed.
    destruct (update_failure w'); repeat split; reflexivity.
Qed.

Lemma C7_sink_failure_recorded_not_raised_witness :
  truthy_string (Some "driver-42") = true /\
  update_failure failing_sink_world = Some (JsError "row level security") /\
  error (hook (exec (watch_onSuccess (Some "driver-42") sample_fix)
                    failing_sink_world initialMem))
    = Some "row level security".
Proof.
  pose proof (C7_sink_failure_recorded_not_raised (Some "driver-42") sample_fix
                (JsError "row level security") failing_sink_world initialMem
                eq_refl eq_refl) as [_ [_ [[Herr _] _]]].
  split; [ reflexivity | split; [ reflexivity | exact Herr ] ].
Defined.

(** C8. For a truthy [driverId], [updateLocation lat lng] stores
    [{lat, lng, timestamp: Date.now()}] as [currentLocation] and sends one
    update with these coordinates to the backend, whatever the value of
    [isTracking], which it does not change; in particular it does so while
    the session is inactive. *)
Theorem C8_manual_update_needs_no_active_session :
  forall (driverId : option string) (la lo : float) (w : World) (m : Mem),
    truthy_string driverId = true ->
    let m' := exec (updateLocation driverId la lo) w m in
    currentLocation (hook m') = Some (mkLocationData la lo None (Some (now w))) /\
    log m' = log m ++ [DriversUpdate (driver_key driverId) la lo (now w)] /\
    isTracking (hook m') = isTracking (hook m) /\
    outcome (updateLocation driverId la lo) w m = Normal tt.
Proof.
  intros driverId la lo w m Hid m'.
  assert (Heq : updateLocation driverId la lo w m =
                updateDriverLocation driverId la lo w
                  (mkMem (with_currentLocation
                            (Some (mkLocationData la lo None (Some (now w)))) (hook m))
                         (log m))) by reflexivity.
  unfold m', exec, outcome. rewrite Heq, updateDriverLocation_eq, Hid. cbn.
  destruct (update_failure w); repeat split; reflexivity.
Qed.

Lemma C8_manual_update_needs_no_active_session_witness :
  truthy_string (Some "driver-42") = true /\
  isTracking (hook initialMem) = false /\
  log (exec (updateLocation (Some "driver-42") 12%float 77%float) sample_world initialMem)
    = [DriversUpdate "driver-42" 12%float 77%float 2000%float].
Proof.
  pose proof (C8_manual_update_needs_no_active_session (Some "driver-42")
                12%float 77%float sample_world initialMem eq_refl) as [_ [Hlog _]].
  split; [ reflexivity | split; [ reflexivity | exact Hlog ] ].
Defined.

(** ** Activation: [startTracking] *)

Lemma checkPermission_eq (w : World) (m : Mem) :
  checkPermission w m =
  (Normal tt, mkMem (hook m) (log_after_check w m)).
Proof.
  unfold checkPermission, log_after_check, bind, ask. cbn.
  destruct (permissions w) as [[[ | | ] | e] | ]; destruct m; reflexivity.
Qed.

(** Without a sensor the [try] block throws before any call. *)
Lemma startTracking_try_unsupported (driverId : option string) (w : World) (m : Mem) :
  has_geolocation w = false ->
  startTracking_try driverId w m =
  (Thrown (JsError msg_unsupported), mkMem (with_error None (hook m)) (log m)).
Proof.
  intros Hgeo. unfold startTracking_try, bind, ask, setError, update.
  rewrite Hgeo. reflexivity.
Qed.

(** With a sensor that refuses the one-shot request, the [try] block throws
    after the request. *)
Lemma startTracking_try_rejected (driverId : option string) (err : JsValue)
    (w : World) (m : Mem) :
  has_geolocation w = true ->
  oneShot w = OneShotError err ->
  startTracking_try driverId w m =
  (Thrown (getCurrentPosition_rejection err),
   mkMem (with_error None (hook m))
         (log_after_check w m ++ [GetCurrentPosition oneShotOptions])).
Proof.
  intros Hgeo Hone. unfold startTracking_try.
  unfold bind at 1. unfold setError, update at 1.
  unfold bind at 1. unfold ask at 1. rewrite Hgeo.
  unfold bind at 1. cbn [negb ret].
  unfold bind at 1. rewrite checkPermission_eq.
  unfold bind at 1.
  rewrite (getCurrentPosition_rejected err w _ Hgeo Hone). reflexivity.
Qed.

(** With a sensor that answers with a fix, the [try] block runs to its
    end. *)
Lemma startTracking_try_fix (driverId : option string) (p : GeolocationPosition)
    (w : World) (m : Mem) :
  has_geolocation w = true ->
  oneShot w = OneShotFix p ->
  startTracking_try driverId w m =
  let sent :=
    updateDriverLocation driverId (latitude (coords p)) (longitude (coords p)) w
      (mkMem (with_currentLocation (Some (locationOfPosition p)) (with_error None (hook m)))
             (log_after_check w m ++ [GetCurrentPosition oneShotOptions])) in
  (Normal tt,
   mkMem (with_isTracking true
            (with_intervalRef (Some (fresh_timer w))
               (with_watchIdRef (Some (fresh_watch w)) (hook (snd sent)))))
         (log (snd sent) ++ [WatchPosition watchOptions (fresh_watch w);
                             SetInterval pollPeriod (fresh_timer w)])).
Proof.
  intros Hgeo Hone. unfold startTracking_try.
  unfold bind at 1. unfold setError, update at 1.
  unfold bind at 1. unfold ask at 1. rewrite Hgeo.
  unfold bind at 1. cbn [negb ret].
  unfold bind at 1. rewrite checkPermission_eq.
  unfold bind at 1.
  rewrite (getCurrentPosition_fix p w _ Hgeo Hone).
  unfold bind at 1. unfold setCurrentLocation, update at 1.
  unfold bind at 1. cbn [hook log].
  rewrite !updateDriverLocation_eq.
  unfold bind, ask, emit, set_watchIdRef, set_intervalRef, setIsTracking, update.
  unfold log_after_check. cbn.
  rewrite <- !app_assoc. reflexivity.
Qed.

Lemma startTracking_eq (driverId : option string) (w : World) (m : Mem) :
  startTracking driverId w m =
  match startTracking_try driverId w m with
  | (Normal a, m') => (Normal a, m')
  | (Thrown e, m') =>
      (Normal tt,
       mkMem (with_isTracking false
                (with_error (Some (message_or msg_start_failed e)) (hook m')))
             (log m'))
  end.
Proof.
  unfold startTracking, try_catch.
  destruct (startTracking_try driverId w m) as [[a | e] m']; reflexivity.
Qed.

(** The [try] block throws exactly when there is no sensor or the sensor
    refuses the one-shot request. *)
Lemma startTracking_try_throws (driverId : option string) (e : JsValue)
    (w : World) (m : Mem) :
  outcome (startTracking_try driverId) w m = Thrown e ->
  (has_geolocation w = false /\ e = JsError msg_unsupported) \/
  (has_geolocation w = true /\
   exists err, oneShot w = OneShotError err /\ e = getCurrentPosition_rejection err).
Proof.
  unfold outcome. intros H.
  destruct (has_geolocation w) eqn:Hgeo.
  - right. split; [ reflexivity | ].
    destruct (oneShot w) as [p | err] eqn:Hone.
    + rewrite (startTracking_try_fix driverId p w m Hgeo Hone) in H. discriminate.
    + rewrite (startTracking_try_rejected driverId err w m Hgeo Hone) in H.
      exists err. split; [ reflexivity | ]. cbn in H. congruence.
  - left. split; [ reflexivity | ].
    rewrite (startTracking_try_unsupported driverId w m Hgeo) in H.
    cbn in H. congruence.
Qed.

Lemma filter_log_after_check (f : Call -> bool) (w : World) (m : Mem) :
  f PermissionsQuery = false ->
  filter f (log_after_check w m) = filter f (log m).
Proof.
  intros Hf. unfold log_after_check.
  destruct (permissions w); [ | reflexivity ].
  rewrite filter_app. cbn. rewrite Hf. apply app_nil_r.
Qed.

(** C5. Without [navigator.geolocation], [startTracking] throws the
    unsupported-browser error inside its [try] block before making any call:
    the log is unchanged (no subscription, no timer, no request), both refs
    and [currentLocation] keep their values, [error] holds the
    unsupported-browser message and [isTracking] is [false]. *)
Theorem C5_no_sensor_fails_unsupported :
  forall (driverId : option string) (w : World) (m : Mem),
    has_geolocation w = false ->
    outcome (startTracking_try driverId) w m = Thrown (JsError msg_unsupported) /\
    exec (startTracking driverId) w m =
      mkMem (with_isTracking false (with_error (Some msg_unsupported) (hook m))) (log m) /\
    isTracking (hook (exec (startTracking driverId) w m)) = false /\
    error (hook (exec (startTracking driverId) w m)) = Some msg_unsupported /\
    watchIdRef (hook (exec (startTracking driverId) w m)) = watchIdRef (hook m) /\
    intervalRef (hook (exec (startTracking driverId) w m)) = intervalRef (hook m).
Proof.
  intros driverId w m Hgeo. unfold outcome, exec.
  rewrite startTracking_eq, (startTracking_try_unsupported driverId w m Hgeo).
  repeat split.
Qed.

Lemma C5_no_sensor_fails_unsupported_witness :
  has_geolocation no_sensor_world = false /\
  exec (startTracking (Some "driver-42")) no_sensor_world initialMem =
    mkMem (mkHook None false (Some msg_unsupported) None None) [].
Proof.
  pose proof (C5_no_sensor_fails_unsupported (Some "driver-42") no_sensor_world
                initialMem eq_refl) as [_ [Hexec _]].
  split; [ reflexivity | exact Hexec ].
Defined.

(** C9. Whenever the [try] block of [startTracking] throws (which happens
    exactly when the sensor is missing or refuses the one-shot request, for
    whatever cause), [startTracking] leaves [currentLocation] and both refs
    as they were, starts neither a subscription nor a timer, and ends with
    [isTracking = false] and the message of the failure in [error]. *)
Theorem C9_failed_activation_keeps_fix_and_handles :
  forall (driverId : option string) (e : JsValue) (w : World) (m : Mem),
    outcome (startTracking_try driverId) w m = Thrown e ->
    let m' := exec (startTracking driverId) w m in
    currentLocation (hook m') = currentLocation (hook m) /\
    watchIdRef (hook m') = watchIdRef (hook m) /\
    intervalRef (hook m') = intervalRef (hook m) /\
    filter is_producer_start (log m') = filter is_producer_start (log m) /\
    isTracking (hook m') = false /\
    error (hook m') = Some (message_or msg_start_failed e).
Proof.
  intros driverId e w m Hthrow m'. unfold m', exec. rewrite startTracking_eq.
  destruct (startTracking_try_throws driverId e w m Hthrow)
    as [[Hgeo ->] | [Hgeo [err [Hone ->]]]].
  - rewrite (startTracking_try_unsupported driverId w m Hgeo). repeat split.
  - rewrite (startTracking_try_rejected driverId err w m Hgeo Hone). cbn.
    repeat split.
    rewrite filter_app, filter_log_after_check by reflexivity.
    cbn. apply app_nil_r.
Qed.

Lemma C9_failed_activation_keeps_fix_and_handles_witness :
  outcome (startTracking_try (Some "driver-42")) denied_world initialMem
    = Thrown (JsError msg_blocked) /\
  currentLocation (hook (exec (startTracking (Some "driver-42")) denied_world initialMem))
    = None.
Proof.
  pose proof (C9_failed_activation_keeps_fix_and_handles (Some "driver-42")
                (JsError msg_blocked) denied_world initialMem eq_refl) as [Hloc _].
  split; [ reflexivity | exact Hloc ].
Defined.

(** C2. With the permission query answering [denied], [startTracking]
    still sends the one-shot request to the sensor: the [throw] of line 139
    is caught by the [catch] of line 141, which only logs.  Here the sensor
    then refuses, so the activation does end with the blocked-permission
    message, but only after the request was made. *)
Theorem C2_denied_permission_still_requests_fix :
  permissions denied_world = Some (PermissionStatus denied) /\
  exec (startTracking (Some "driver-42")) denied_world initialMem =
    mkMem (mkHook None false (Some msg_blocked) None None)
          [PermissionsQuery; GetCurrentPosition oneShotOptions] /\
  outcome (checkPermission) denied_world initialMem = Normal tt.
Proof. repeat split. Qed.

(** The same for every environment whose permission query answers
    [denied]: the one-shot request follows the query. *)
Lemma denied_permission_request_follows_query (driverId : option string)
    (w : World) (m : Mem) :
  has_geolocation w = true ->
  permissions w = Some (PermissionStatus denied) ->
  exists rest,
    log (exec (startTracking driverId) w m) =
    log m ++ [PermissionsQuery; GetCurrentPosition oneShotOptions] ++ rest.
Proof.
  intros Hgeo Hperm. unfold exec. rewrite startTracking_eq.
  destruct (oneShot w) as [p | err] eqn:Hone.
  - rewrite (startTracking_try_fix driverId p w m Hgeo Hone). cbn.
    rewrite updateDriverLocation_eq. unfold log_after_check. rewrite Hperm.
    destruct (truthy_string driverId); cbn; rewrite <- !app_assoc; cbn;
      eexists; reflexivity.
  - rewrite (startTracking_try_rejected driverId err w m Hgeo Hone). cbn.
    unfold log_after_check. rewrite Hperm. rewrite <- app_assoc. cbn.
    exists []. reflexivity.
Qed.



(** ** Steady state: subscription errors and deactivation (C3, C4) *)

Lemma watch_onError_eq (err : JsValue) (w : World) (m : Mem) :
  watch_onError err w m =
  (Normal tt,
   mkMem (with_isTracking false (with_error (Some (watch_errorMessage err)) (hook m)))
         (log m)).
Proof. reflexivity. Qed.

Lemma stopTracking_eq (w : World) (m : Mem) :
  stopTracking w m =
  if stop_blocked w (hook m) then (Thrown (JsError msg_no_clearWatch), m)
  else
    (Normal tt,
     mkMem (mkHook (currentLocation (hook m)) false None None None)
           (log m ++ cancellations (hook m))).
Proof.
  unfold stopTracking, stop_blocked, cancellations, bind, read, emit, ask.
  destruct m as [[loc act err [id | ] [t | ]] l]; cbn;
    try destruct (has_geolocation w); cbn;
    rewrite <- ?app_assoc, ?app_nil_r; reflexivity.
Qed.

Lemma stop_blocked_sensor (w : World) (h : Hook) :
  has_geolocation w = true -> stop_blocked w h = false.
Proof.
  intros Hgeo. unfold stop_blocked. rewrite Hgeo.
  destruct (watchIdRef h); reflexivity.
Qed.

(** C4 does not hold for the timeout cause: a session that was active is
    marked inactive by a subscription timeout as well. *)
Lemma C4_timeout_marks_session_inactive :
  isTracking (hook (run (Some "driver-42") [(sample_world, Activate)])) = true /\
  isTracking (hook (run (Some "driver-42")
                        [(sample_world, Activate);
                         (sample_world, WatchFailure (JsGeoError TIMEOUT))])) = false /\
  error (hook (run (Some "driver-42")
                   [(sample_world, Activate);
                    (sample_world, WatchFailure (JsGeoError TIMEOUT))]))
    = Some msg_retrying.
Proof. repeat split. Qed.

(** C4, amended. The error callback of the subscription sets [error] to
    the message selected by the cause and sets [isTracking] to [false] for
    every cause, the timeout included.  It makes no call and leaves both refs
    alone, so the timers that were running still are, and a later tick
    still stores and sends its fix; the timer is cancelled by
    [stopTracking], which cancels what the refs hold whenever
    [navigator.geolocation] is there. *)
Theorem C4_subscription_error_marks_inactive_keeps_timer :
  forall (driverId : option string) (err : JsValue) (w : World) (m : Mem),
    let m' := exec (watch_onError err) w m in
    hook m' = with_isTracking false (with_error (Some (watch_errorMessage err)) (hook m)) /\
    isTracking (hook m') = false /\
    log m' = log m /\
    live_timers (log m') = live_timers (log m) /\
    intervalRef (hook m') = intervalRef (hook m) /\
    (watch_errorMessage (JsGeoError PERMISSION_DENIED) = msg_revoked /\
     watch_errorMessage (JsGeoError POSITION_UNAVAILABLE) = msg_signal_lost /\
     watch_errorMessage (JsGeoError TIMEOUT) = msg_retrying) /\
    (forall (p : GeolocationPosition) (w2 : World),
        truthy_string driverId = true ->
        has_geolocation w2 = true ->
        oneShot w2 = OneShotFix p ->
        currentLocation (hook (exec (interval_onTick driverId) w2 m'))
          = Some (locationOfPosition p) /\
        log (exec (interval_onTick driverId) w2 m')
          = log m ++ [GetCurrentPosition oneShotOptions;
                      DriversUpdate (driver_key driverId) (latitude (coords p))
                                    (longitude (coords p)) (now w2)]) /\
    (forall w' : World,
        has_geolocation w' = true ->
        log (exec stopTracking w' m') = log m ++ cancellations (hook m)).
Proof.
  intros driverId err w m m'. unfold m', exec. rewrite watch_onError_eq. cbn [snd hook log].
  do 6 (split; [ repeat split | ]).
  split.
  - intros p w2 Hid Hgeo Hone.
    rewrite (interval_onTick_fix driverId p w2 _ Hgeo Hone), updateDriverLocation_eq, Hid.
    cbn. rewrite <- app_assoc.
    destruct (update_failure w2); split; reflexivity.
  - intros w' Hgeo. rewrite stopTracking_eq, (stop_blocked_sensor w' _ Hgeo).
    reflexivity.
Qed.

Lemma C4_subscription_error_marks_inactive_keeps_timer_witness :
  truthy_string (Some "driver-42") = true /\
  has_geolocation sample_world = true /\
  oneShot sample_world = OneShotFix sample_fix /\
  log (exec (interval_onTick (Some "driver-42")) sample_world
         (exec (watch_onError (JsGeoError TIMEOUT)) sample_world initialMem))
    = [GetCurrentPosition oneShotOptions;
       DriversUpdate "driver-42" 12.5%float 77.5%float 2000%float].
Proof.
  pose proof (C4_subscription_error_marks_inactive_keeps_timer (Some "driver-42")
                (JsGeoError TIMEOUT) sample_world initialMem)
    as [_ [_ [_ [_ [_ [_ [Htick _]]]]]]].
  destruct (Htick sample_fix sample_world eq_refl eq_refl eq_refl) as [_ Hlog].
  split; [ reflexivity | split; [ reflexivity | split; [ reflexivity | exact Hlog ] ] ].
Defined.

(** ** Read-back from the backend (C10) *)

Lemma acceptRow_falsy (row : DriverRow) (w : World) (m : Mem) :
  truthy_nullable (current_latitude row) && truthy_nullable (current_longitude row) = false ->
  acceptRow row w m = (Normal tt, m).
Proof. intros H. unfold acceptRow. rewrite H. reflexivity. Qed.



(** C10. Both read-back paths guard the write with
    [current_latitude && current_longitude].  When one of the two stored
    values is not truthy, the realtime handler changes nothing and the fetch
    on mount changes no hook state; a stored latitude or longitude of [0]
    is such a value, so a position on the equator or on the prime meridian
    never becomes the current fix through either path. *)
Theorem C10_zero_coordinate_rows_are_dropped :
  forall (driverId : option string) (row : DriverRow) (w : World) (m : Mem),
    (truthy_nullable (current_latitude row) && truthy_nullable (current_longitude row) = false ->
     (drivers_select w = SelectResponse (Some row) None ->
      hook (exec (onMount driverId) w m) = hook m) /\
     exec (onRealtimeUpdate driverId row) w m = m) /\
    (current_latitude row = Some 0%float \/ current_longitude row = Some 0%float ->
     truthy_nullable (current_latitude row) && truthy_nullable (current_longitude row) = false).
Proof.
  intros driverId row w m. split.
  - intros Hfalsy. split.
    + intros Hsel. unfold exec, onMount.
      destruct (specific_driver driverId); [ | reflexivity ].
      unfold fetchCurrentLocation.
      destruct (truthy_string driverId); [ | reflexivity ].
      unfold try_catch, bind at 1. cbn. rewrite Hsel.
      rewrite (acceptRow_falsy row w _ Hfalsy). reflexivity.
    + unfold exec, onRealtimeUpdate.
      destruct (specific_driver driverId); [ | reflexivity ].
      rewrite (acceptRow_falsy row w m Hfalsy). reflexivity.
  - intros [H | H]; rewrite H; cbn.
    + reflexivity.
    + apply andb_false_r.
Qed.

Lemma C10_zero_coordinate_rows_are_dropped_witness :
  current_latitude equator_row = Some 0%float /\
  drivers_select equator_world = SelectResponse (Some equator_row) None /\
  hook (exec (onMount (Some "driver-42")) equator_world initialMem) = initialHook /\
  exec (onRealtimeUpdate (Some "driver-42") equator_row) equator_world initialMem
    = initialMem.
Proof.
  pose proof (C10_zero_coordinate_rows_are_dropped (Some "driver-42") equator_row
                equator_world initialMem) as [Hdrop Hzero].
  destruct (Hdrop (Hzero (or_introl eq_refl))) as [Hmount Hpush].
  split; [ reflexivity | split; [ reflexivity | split; [ exact (Hmount eq_refl) | exact Hpush ] ] ].
Defined.

(** ** The handles in every state of a session (C3) *)

Section Invariant.

Variable driverId : option string.
















End Invariant.

(** ** Interleaved handlers *)

(** Unfolding the handlers and their segments down to the record fields. *)
Ltac eff_compute :=
  cbv [called resumed handler
       startTracking startTracking_try startTracking_called startTracking_catch
       startTracking_finish startTracking_permissionAnswered startTracking_fixAnswered
       startTracking_writeAnswered checkPermission getCurrentPosition requestPosition
       positionAnswered updateDriverLocation beginWrite endWrite storeAndWrite
       updateLocation updateLocation_called interval_onTick interval_called
       interval_fixAnswered watch_onSuccess watch_onError stopTracking
       fetchCurrentLocation fetch_called fetch_answered onMount onRealtimeUpdate acceptRow
       bind ret throw try_catch ask read emit update exec land act
       nth_error firstn skipn app
       setCurrentLocation setIsTracking setError set_watchIdRef set_intervalRef
       with_currentLocation with_isTracking with_error with_watchIdRef with_intervalRef
       locationOfPosition lat lng negb andb hook log fst snd truthy_nullable
       current_latitude current_longitude mem pending
       currentLocation isTracking error watchIdRef intervalRef
       has_geolocation permissions oneShot drivers_update drivers_select now
       date_getTime fresh_watch fresh_timer].

(** Case analysis on what the code branches on. *)
Ltac break_var :=
  match goal with
  | |- context [match ?x with _ => _ end] => is_var x; destruct x
  | |- context [truthy_string ?d] => destruct (truthy_string d)
  | |- context [specific_driver ?d] => destruct (specific_driver d)
  | |- context [truthy_number ?v] => destruct (truthy_number v)
  end.

Ltac eff_cases := eff_compute; repeat (break_var; eff_compute).


Section Interleaving.

Variable driverId : option string.



Lemma mem_land (rest : list Pending) (r : Completion (list Pending) * Mem) :
  mem (land rest r) = snd r.
Proof. destruct r as [[ps | e] m]; reflexivity. Qed.



(** A handler that is not interrupted is the composition of its
    segments. *)
Lemma atomic_as_interleaving (ev : Event) (w : World) (m : Mem) :
  fold_left (act driverId) (atomically (w, ev)) (mkSession m []) =
  mkSession (step driverId m (w, ev)) [].
Proof.
  unfold atomically, step. cbn [fold_left fst snd].
  unfold act at 4. cbn [fst snd mem pending].
  destruct (enabled ev m); [ | reflexivity ].
  destruct w as [geo perms one upd sel t dg fw ft], m as [[loc trk err wr ir] l].
  destruct ev; eff_cases; reflexivity.
Qed.

Lemma run_as_interleaving (evs : list (World * Event)) (m : Mem) :
  fold_left (act driverId) (flat_map atomically evs) (mkSession m []) =
  mkSession (fold_left (step driverId) evs m) [].
Proof.
  revert m. induction evs as [ | [w ev] evs IH ]; intros m.
  - reflexivity.
  - cbn [flat_map]. rewrite fold_left_app, atomic_as_interleaving. apply IH.
Qed.

End Interleaving.





(** * Further properties of the hook *)

(** ** Deactivation *)

(** X1. [stopTracking] on a session that holds no watch id and no timer
    makes no call and only resets [isTracking] and [error], in every
    environment.  It throws exactly when a watch id is held and
    [navigator.geolocation] is missing, and then nothing is cancelled and
    the state is left as it was.  When it completes, stopping again changes
    nothing, makes no call and completes, in every environment. *)
Theorem X1_stopTracking_idempotent :
  forall (w1 w2 : World) (m : Mem) (loc : option LocationData) (trk : bool)
         (err : option string) (l : list Call),
    stopTracking w1 (mkMem (mkHook loc trk err None None) l)
      = (Normal tt, mkMem (mkHook loc false None None None) l) /\
    (stop_blocked w1 (hook m) = true ->
     stopTracking w1 m = (Thrown (JsError msg_no_clearWatch), m)) /\
    (stop_blocked w1 (hook m) = false ->
     outcome stopTracking w1 m = Normal tt /\
     stopTracking w2 (exec stopTracking w1 m) = (Normal tt, exec stopTracking w1 m)).
Proof.
  intros w1 w2 m loc trk err l.
  split; [ | split ].
  - rewrite stopTracking_eq. cbn. unfold cancellations. cbn.
    rewrite app_nil_r. reflexivity.
  - intros Hblocked. rewrite stopTracking_eq, Hblocked. reflexivity.
  - intros Hfree. unfold outcome, exec. rewrite stopTracking_eq, Hfree.
    split; [ reflexivity | ].
    rewrite stopTracking_eq. cbn. unfold cancellations. cbn.
    rewrite app_nil_r. reflexivity.
Qed.

Lemma X1_stopTracking_idempotent_witness :
  let active := exec (startTracking (Some "driver-42")) sample_world initialMem in
  stop_blocked no_sensor_world (hook active) = true /\
  stopTracking no_sensor_world active = (Thrown (JsError msg_no_clearWatch), active) /\
  stop_blocked sample_world (hook active) = false /\
  stopTracking no_sensor_world (exec stopTracking sample_world active)
    = (Normal tt, exec stopTracking sample_world active).
Proof.
  pose proof (X1_stopTracking_idempotent no_sensor_world sample_world
                (exec (startTracking (Some "driver-42")) sample_world initialMem)
                None false None []) as [_ [Hthrows _]].
  pose proof (X1_stopTracking_idempotent sample_world no_sensor_world
                (exec (startTracking (Some "driver-42")) sample_world initialMem)
                None false None []) as [_ [_ Hstops]].
  split; [ reflexivity | ].
  split; [ exact (Hthrows eq_refl) | ].
  split; [ reflexivity | exact (proj2 (Hstops eq_refl)) ].
Defined.

(** ** Activation *)

(** X2. An activation ends with the session active exactly when the sensor
    exists and answers the one-shot request with a fix; the answer of the
    permission query and the answer of the backend play no part.  When it
    succeeds, the refs hold the new subscription and timer, and [error]
    holds the message of the backend failure, if there was one: a failed
    write does not abort the activation. *)
Theorem X2_activation_succeeds_iff_sensor_delivers :
  forall (driverId : option string) (w : World) (m : Mem),
    let h' := hook (exec (startTracking driverId) w m) in
    isTracking h' = has_geolocation w && is_fix (oneShot w) /\
    (isTracking h' = true ->
     watchIdRef h' = Some (fresh_watch w) /\
     intervalRef h' = Some (fresh_timer w) /\
     error h' =
       (if truthy_string driverId
        then option_map (message_or msg_update_failed) (update_failure w)
        else None)).
Proof.
  intros driverId w m h'. unfold h', exec. rewrite startTracking_eq.
  destruct (has_geolocation w) eqn:Hgeo.
  - destruct (oneShot w) as [p | e] eqn:Hone.
    + rewrite (startTracking_try_fix driverId p w m Hgeo Hone).
      rewrite updateDriverLocation_eq. cbn.
      split; [ reflexivity | intros _ ].
      destruct (truthy_string driverId); [ | repeat split ].
      destruct (update_failure w); repeat split.
    + rewrite (startTracking_try_rejected driverId e w m Hgeo Hone). cbn.
      split; [ reflexivity | discriminate ].
  - rewrite (startTracking_try_unsupported driverId w m Hgeo). cbn.
    split; [ reflexivity | discriminate ].
Qed.

Lemma X2_activation_succeeds_iff_sensor_delivers_witness :
  let h' := hook (exec (startTracking (Some "driver-42")) failing_sink_world initialMem) in
  isTracking h' = true /\
  watchIdRef h' = Some 7 /\ intervalRef h' = Some 9 /\
  error h' = Some "row level security".
Proof.
  pose proof (X2_activation_succeeds_iff_sensor_delivers (Some "driver-42")
                failing_sink_world initialMem) as [Hact Hrefs].
  split; [ exact Hact | exact (Hrefs Hact) ].
Defined.

(** ** The fallback poll *)

Lemma getCurrentPosition_throws (w : World) (m : Mem) :
  has_geolocation w && is_fix (oneShot w) = false ->
  exists e m', getCurrentPosition w m = (Thrown e, m') /\ hook m' = hook m /\
               filter is_sink_call (log m') = filter is_sink_call (log m).
Proof.
  intros H. destruct (has_geolocation w) eqn:Hgeo.
  - destruct (oneShot w) as [p | e] eqn:Hone; [ discriminate | ].
    rewrite (getCurrentPosition_rejected e w m Hgeo Hone).
    eexists. eexists. split; [ reflexivity | split; [ reflexivity | ] ].
    cbn. rewrite filter_app. cbn. apply app_nil_r.
  - unfold getCurrentPosition, bind, ask. rewrite Hgeo. cbn.
    eexists. eexists. split; [ reflexivity | split; reflexivity ].
Qed.

(** X8. A poll that obtains no fix is silent: when the sensor is missing or
    refuses the one-shot request of the interval callback, the hook state is
    left exactly as it was (in particular [error] is not set and
    [isTracking] keeps its value), nothing is written to the backend, and
    the callback completes normally. *)
Theorem X8_failed_poll_is_silent :
  forall (driverId : option string) (w : World) (m : Mem),
    has_geolocation w && is_fix (oneShot w) = false ->
    hook (exec (interval_onTick driverId) w m) = hook m /\
    filter is_sink_call (log (exec (interval_onTick driverId) w m))
      = filter is_sink_call (log m) /\
    outcome (interval_onTick driverId) w m = Normal tt.
Proof.
  intros driverId w m H.
  destruct (getCurrentPosition_throws w m H) as [e [m' [Hget [Hhook Hlog]]]].
  assert (Htick : interval_onTick driverId w m = (Normal tt, m')).
  { unfold interval_onTick, try_catch, bind at 1. rewrite Hget. reflexivity. }
  unfold exec, outcome. rewrite Htick. cbn.
  split; [ exact Hhook | split; [ exact Hlog | reflexivity ] ].
Qed.

Lemma X8_failed_poll_is_silent_witness :
  has_geolocation denied_world && is_fix (oneShot denied_world) = false /\
  hook (exec (interval_onTick (Some "driver-42")) denied_world initialMem) = initialHook.
Proof.
  pose proof (X8_failed_poll_is_silent (Some "driver-42") denied_world initialMem
                eq_refl) as [Hhook _].
  split; [ reflexivity | exact Hhook ].
Defined.

(** ** Reading back from the backend *)

(** X6. Reading back never reports anything: whatever the backend answers
    to the fetch on mount (a row, an error, a rejected request, no data),
    [error], [isTracking] and both refs keep their values, and the effect
    completes normally.  For an undefined or empty [driverId] and for the
    sentinel ["all"] the effect does nothing at all: no request is sent. *)
Theorem X6_read_back_is_silent :
  forall (driverId : option string) (w : World) (m : Mem),
    let h' := hook (exec (onMount driverId) w m) in
    (error h' = error (hook m) /\
     isTracking h' = isTracking (hook m) /\
     watchIdRef h' = watchIdRef (hook m) /\
     intervalRef h' = intervalRef (hook m) /\
     outcome (onMount driverId) w m = Normal tt) /\
    exec (onMount None) w m = m /\
    exec (onMount (Some "")) w m = m /\
    exec (onMount (Some "all")) w m = m.
Proof.
  intros driverId w m h'. split; [ | repeat split ].
  unfold h', outcome.
  destruct w as [geo perms one upd sel t dg fw ft], m as [[loc trk err wr ir] l].
  eff_cases; repeat split.
Qed.

(** X7. When the backend answers the fetch on mount with a row whose two
    coordinates are truthy, the current fix becomes these coordinates, with
    the stored update time as its timestamp, or the present time when the
    row has no update time or an empty one; the realtime handler does the
    same with a pushed row.  The fetch sends exactly one request, for the
    hook's own [driverId]. *)
Theorem X7_valid_row_becomes_current_fix :
  forall (driverId : option string) (la lo : float) (stamp : option string)
         (w : World) (m : Mem),
    specific_driver driverId = true ->
    truthy_number la = true ->
    truthy_number lo = true ->
    let row := mkRow (Some la) (Some lo) stamp in
    let fix_of_row :=
      mkLocationData la lo None
        (Some (match stamp with
               | Some s => if String.eqb s "" then now w else date_getTime w s
               | None => now w
               end)) in
    (drivers_select w = SelectResponse (Some row) None ->
     exec (onMount driverId) w m =
       mkMem (with_currentLocation (Some fix_of_row) (hook m))
             (log m ++ [DriversSelect (driver_key driverId)])) /\
    exec (onRealtimeUpdate driverId row) w m =
      mkMem (with_currentLocation (Some fix_of_row) (hook m)) (log m).
Proof.
  intros driverId la lo stamp w m Hspec Hla Hlo row fix_of_row.
  assert (Htruthy : truthy_string driverId = true).
  { destruct driverId as [s | ]; [ | discriminate ].
    cbn in *. apply andb_true_iff in Hspec. tauto. }
  assert (Hfix : locationOfRow w la lo row = fix_of_row).
  { unfold locationOfRow, fix_of_row, row. cbn.
    destruct stamp as [s | ]; [ | reflexivity ].
    destruct (String.eqb s ""); reflexivity. }
  assert (Haccept : forall m0,
             acceptRow row w m0 =
             (Normal tt, mkMem (with_currentLocation (Some fix_of_row) (hook m0)) (log m0))).
  { intros m0. unfold acceptRow, row. cbn. rewrite Hla, Hlo. cbn.
    fold row. rewrite Hfix. reflexivity. }
  split.
  - intros Hsel. unfold exec, onMount, fetchCurrentLocation.
    rewrite Hspec, Htruthy. cbn.
    unfold try_catch, bind at 1. cbn. unfold bind, ask. rewrite Hsel, Haccept.
    reflexivity.
  - unfold exec, onRealtimeUpdate. rewrite Hspec, Haccept. reflexivity.
Qed.

Lemma X7_valid_row_becomes_current_fix_witness :
  specific_driver (Some "driver-42") = true /\
  truthy_number 12.5%float = true /\
  currentLocation
    (hook (exec (onRealtimeUpdate (Some "driver-42")
                   (mkRow (Some 12.5%float) (Some 77.5%float) (Some "")))
                sample_world initialMem))
    = Some (mkLocationData 12.5%float 77.5%float None (Some 2000%float)).
Proof.
  pose proof (X7_valid_row_becomes_current_fix (Some "driver-42") 12.5%float 77.5%float
                (Some "") sample_world initialMem eq_refl eq_refl eq_refl) as [_ Hpush].
  split; [ reflexivity | split; [ reflexivity | ] ].
  rewrite Hpush. reflexivity.
Defined.

(** ** What stays registered with the browser *)

(** Unfolding the handlers down to the record fields, keeping the logs as
    concatenations. *)
Ltac hook_compute :=
  cbv [handler startTracking startTracking_try checkPermission getCurrentPosition
       updateDriverLocation updateLocation interval_onTick watch_onSuccess watch_onError
       stopTracking fetchCurrentLocation onMount onRealtimeUpdate acceptRow
       bind ret throw try_catch ask read emit update exec outcome
       setCurrentLocation setIsTracking setError set_watchIdRef set_intervalRef
       with_currentLocation with_isTracking with_error with_watchIdRef with_intervalRef
       locationOfPosition lat lng negb andb hook log fst snd truthy_nullable
       current_latitude current_longitude
       currentLocation isTracking error watchIdRef intervalRef
       has_geolocation permissions oneShot drivers_update drivers_select now
       date_getTime fresh_watch fresh_timer].

Ltac hook_cases := hook_compute; repeat (break_var; hook_compute).

Lemma live_watches_app (l l' : list Call) :
  live_watches (l ++ l') =
  fold_left (fun acc c =>
               match c with
               | WatchPosition _ id => id :: acc
               | ClearWatch id => remove Z.eq_dec id acc
               | _ => acc
               end) l' (live_watches l).
Proof. unfold live_watches. apply fold_left_app. Qed.

Lemma live_timers_app (l l' : list Call) :
  live_timers (l ++ l') =
  fold_left (fun acc c =>
               match c with
               | SetInterval _ h => h :: acc
               | ClearInterval h => remove Z.eq_dec h acc
               | _ => acc
               end) l' (live_timers l).
Proof. unfold live_timers. apply fold_left_app. Qed.


Section Producers.

Variable driverId : option string.

(** A steady event starts and cancels nothing. *)
Lemma steady_keeps_producers (ev : Event) (w : World) (m : Mem) :
  is_steady ev = true ->
  let m' := exec (handler driverId ev) w m in
  live_watches (log m') = live_watches (log m) /\
  live_timers (log m') = live_timers (log m) /\
  watchIdRef (hook m') = watchIdRef (hook m) /\
  intervalRef (hook m') = intervalRef (hook m).
Proof.
  destruct w as [geo perms one upd sel t dg fw ft], m as [[loc trk err wr ir] l].
  destruct ev; try discriminate; intros _; hook_cases;
    rewrite ?live_watches_app, ?live_timers_app; repeat split.
Qed.

Lemma steady_step_keeps_producers (x : World * Event) (m : Mem) :
  is_steady (snd x) = true ->
  live_watches (log (step driverId m x)) = live_watches (log m) /\
  live_timers (log (step driverId m x)) = live_timers (log m) /\
  watchIdRef (hook (step driverId m x)) = watchIdRef (hook m) /\
  intervalRef (hook (step driverId m x)) = intervalRef (hook m).
Proof.
  intros Hsteady. unfold step.
  destruct (enabled (snd x) m); [ | repeat split ].
  apply steady_keeps_producers. exact Hsteady.
Qed.

Lemma steady_steps_keep_producers (evs : list (World * Event)) (m : Mem) :
  forallb (fun x => is_steady (snd x)) evs = true ->
  live_watches (log (fold_left (step driverId) evs m)) = live_watches (log m) /\
  live_timers (log (fold_left (step driverId) evs m)) = live_timers (log m) /\
  watchIdRef (hook (fold_left (step driverId) evs m)) = watchIdRef (hook m) /\
  intervalRef (hook (fold_left (step driverId) evs m)) = intervalRef (hook m).
Proof.
  revert m. induction evs as [ | x evs IH ]; intros m Hall; cbn in *.
  - repeat split.
  - apply andb_true_iff in Hall. destruct Hall as [Hx Hevs].
    destruct (steady_step_keeps_producers x m Hx) as [H1 [H2 [H3 H4]]].
    destruct (IH (step driverId m x) Hevs) as [I1 [I2 [I3 I4]]].
    rewrite I1, I2, I3, I4. repeat split; assumption.
Qed.

(** What an activation registers: the new pair when it succeeds, nothing
    when it fails. *)
Lemma startTracking_producers (w : World) (m : Mem) :
  let m' := exec (startTracking driverId) w m in
  if has_geolocation w && is_fix (oneShot w) then
    live_watches (log m') = fresh_watch w :: live_watches (log m) /\
    live_timers (log m') = fresh_timer w :: live_timers (log m) /\
    watchIdRef (hook m') = Some (fresh_watch w) /\
    intervalRef (hook m') = Some (fresh_timer w)
  else
    live_watches (log m') = live_watches (log m) /\
    live_timers (log m') = live_timers (log m) /\
    watchIdRef (hook m') = watchIdRef (hook m) /\
    intervalRef (hook m') = intervalRef (hook m).
Proof.
  destruct w as [geo perms one upd sel t dg fw ft], m as [[loc trk err wr ir] l].
  cbn [has_geolocation oneShot fresh_watch fresh_timer].
  destruct geo, one as [p | e]; cbn [andb is_fix]; hook_cases;
    rewrite ?live_watches_app, ?live_timers_app; repeat split.
Qed.





End Producers.

(** X4. A second activation without a deactivation in between loses the
    first subscription and the first timer.  With the handlers running one
    after the other: when two activations succeed,
    with only steady events between them (for instance a subscription error,
    after which the caller offers the start button again), the refs are
    overwritten, a [stopTracking] that finds [navigator.geolocation]
    cancels the second pair only, and the first subscription and the first
    timer stay live while both refs are unset: nothing in the hook can
    cancel them any more. *)
Theorem X4_second_activation_leaks_first_pair :
  forall (driverId : option string) (w1 w2 w3 : World)
         (evs : list (World * Event)),
    has_geolocation w1 && is_fix (oneShot w1) = true ->
    has_geolocation w2 && is_fix (oneShot w2) = true ->
    fresh_watch w2 <> fresh_watch w1 ->
    fresh_timer w2 <> fresh_timer w1 ->
    forallb (fun x => is_steady (snd x)) evs = true ->
    has_geolocation w3 = true ->
    let m := run driverId ((w1, Activate) :: evs ++ [(w2, Activate); (w3, Deactivate)]) in
    live_watches (log m) = [fresh_watch w1] /\
    live_timers (log m) = [fresh_timer w1] /\
    watchIdRef (hook m) = None /\
    intervalRef (hook m) = None.
Proof.
  intros driverId w1 w2 w3 evs Hok1 Hok2 Hwatch Htimer Hsteady Hgeo m.
  set (m1 := exec (startTracking driverId) w1 initialMem).
  set (m2 := fold_left (step driverId) evs m1).
  set (m3 := exec (startTracking driverId) w2 m2).
  assert (Hm : m = exec stopTracking w3 m3).
  { unfold m, run. cbn [fold_left]. rewrite fold_left_app. reflexivity. }
  rewrite Hm. clear Hm m.
  pose proof (startTracking_producers driverId w1 initialMem) as H1.
  cbn zeta in H1. rewrite Hok1 in H1. fold m1 in H1.
  destruct H1 as [A1 [A2 [A3 A4]]].
  destruct (steady_steps_keep_producers driverId evs m1 Hsteady) as [B1 [B2 [B3 B4]]].
  fold m2 in B1, B2, B3, B4.
  pose proof (startTracking_producers driverId w2 m2) as H3.
  cbn zeta in H3. rewrite Hok2 in H3. fold m3 in H3.
  destruct H3 as [C1 [C2 [C3 C4]]].
  unfold exec. rewrite stopTracking_eq, (stop_blocked_sensor w3 _ Hgeo).
  cbn [snd hook log watchIdRef intervalRef].
  rewrite live_watches_app, live_timers_app, C1, C2, B1, B2, A1, A2.
  unfold cancellations. rewrite C3, C4. cbn.
  destruct (Z.eq_dec (fresh_watch w2) (fresh_watch w2)) as [_ | Hne]; [ | contradiction ].
  destruct (Z.eq_dec (fresh_watch w2) (fresh_watch w1)) as [Heq | _]; [ contradiction | ].
  destruct (Z.eq_dec (fresh_timer w2) (fresh_timer w2)) as [_ | Hne]; [ | contradiction ].
  destruct (Z.eq_dec (fresh_timer w2) (fresh_timer w1)) as [Heq | _]; [ contradiction | ].
  repeat split.
Qed.

Lemma X4_second_activation_leaks_first_pair_witness :
  let before := run (Some "driver-42")
                    [(sample_world, Activate);
                     (sample_world, WatchFailure (JsGeoError TIMEOUT))] in
  let m := run (Some "driver-42")
               [(sample_world, Activate);
                (sample_world, WatchFailure (JsGeoError TIMEOUT));
                (second_world, Activate);
                (second_world, Deactivate)] in
  actionButtons "driver-42" (isTracking (hook before)) true (Some granted)
    = Some (StartButton false) /\
  live_watches (log m) = [7] /\ live_timers (log m) = [9] /\
  watchIdRef (hook m) = None /\ intervalRef (hook m) = None.
Proof.
  split; [ reflexivity | ].
  apply (X4_second_activation_leaks_first_pair (Some "driver-42") sample_world
           second_world second_world
           [(sample_world, WatchFailure (JsGeoError TIMEOUT))]);
    [ reflexivity | reflexivity | discriminate | discriminate | reflexivity
    | reflexivity ].
Defined.

(** ** The calls a session makes *)

Ltac segment_compute :=
  cbv [called resumed
       startTracking_called startTracking_catch
       startTracking_finish startTracking_permissionAnswered startTracking_fixAnswered
       startTracking_writeAnswered requestPosition
       positionAnswered beginWrite endWrite storeAndWrite
       updateLocation_called interval_called
       interval_fixAnswered watch_onError stopTracking
       fetch_called fetch_answered onRealtimeUpdate acceptRow
       bind ret throw try_catch ask read emit update
       setCurrentLocation setIsTracking setError set_watchIdRef set_intervalRef
       with_currentLocation with_isTracking with_error with_watchIdRef with_intervalRef
       locationOfPosition lat lng negb andb hook log fst snd truthy_nullable
       current_latitude current_longitude
       currentLocation isTracking error watchIdRef intervalRef
       has_geolocation permissions oneShot drivers_update drivers_select now
       date_getTime fresh_watch fresh_timer].

Ltac break_keep :=
  match goal with
  | |- context [match ?x with _ => _ end] => is_var x; destruct x
  | |- context [truthy_string ?d] => destruct (truthy_string d) eqn:?
  | |- context [specific_driver ?d] => destruct (specific_driver d) eqn:?
  | |- context [truthy_number ?v] => destruct (truthy_number v)
  end.

Ltac segment_cases := segment_compute; repeat (break_keep; segment_compute).

Lemma truthy_driver_key (driverId : option string) :
  truthy_string driverId = true -> driverId = Some (driver_key driverId).
Proof. destruct driverId as [s | ]; [ reflexivity | discriminate ]. Qed.

Ltac solve_allowed weaken :=
  repeat rewrite Forall_app; repeat split; try assumption;
  repeat (apply Forall_cons || apply Forall_nil);
  apply weaken; cbn; auto using truthy_driver_key.

Section Calls.

(** The closure that runs was made for [driverId]; [P] is any property of
    calls that holds of the calls allowed for [driverId]. *)
Variable driverId : option string.
Variable P : Call -> Prop.
Hypothesis allowed_P : forall c : Call, call_allowed driverId c -> P c.

Lemma called_calls_allowed (ev : Event) (w : World) (m : Mem) :
  Forall P (log m) ->
  Forall P (log (snd (called driverId ev w m))).
Proof.
  destruct w as [geo perms one upd sel t dg fw ft], m as [[loc trk err wr ir] l].
  cbn [log]. intros Hall. destruct ev; segment_cases; solve_allowed allowed_P.
Qed.

Lemma resumed_calls_allowed (p : Pending) (w : World) (m : Mem) :
  Forall P (log m) ->
  Forall P (log (snd (resumed driverId p w m))).
Proof.
  destruct w as [geo perms one upd sel t dg fw ft], m as [[loc trk err wr ir] l].
  cbn [log]. intros Hall. destruct p; segment_cases; solve_allowed allowed_P.
Qed.

Lemma act_calls_allowed (s : Session) (x : World * Action) :
  Forall P (log (mem s)) ->
  Forall P (log (mem (act driverId s x))).
Proof.
  intros Hall. unfold act. destruct (snd x) as [ev | i].
  - destruct (enabled ev (mem s)); [ | exact Hall ].
    rewrite mem_land. apply called_calls_allowed. exact Hall.
  - destruct (nth_error (pending s) i) as [p | ]; [ | exact Hall ].
    rewrite mem_land. apply resumed_calls_allowed. exact Hall.
Qed.

End Calls.

Lemma fold_act_calls_allowed (driverId : option string)
    (xs : list (World * Action)) (s : Session) :
  Forall (call_allowed driverId) (log (mem s)) ->
  Forall (call_allowed driverId) (log (mem (fold_left (act driverId) xs s))).
Proof.
  revert s. induction xs as [ | x xs IH ]; intros s Hs; cbn.
  - exact Hs.
  - apply IH. apply act_calls_allowed; [ | exact Hs ]. intros c Hc. exact Hc.
Qed.

Lemma fold_act_as_calls_allowed (ids : list (option string))
    (xs : list (option string * (World * Action))) (s : Session) :
  (forall x, In x xs -> In (fst x) ids) ->
  Forall (call_allowed_in ids) (log (mem s)) ->
  Forall (call_allowed_in ids) (log (mem (fold_left act_as xs s))).
Proof.
  revert s. induction xs as [ | x xs IH ]; intros s Hids Hs; cbn.
  - exact Hs.
  - apply IH; [ intros y Hy; apply Hids; right; exact Hy | ].
    unfold act_as. apply act_calls_allowed; [ | exact Hs ].
    intros c Hc. exists (fst x). split; [ apply Hids; left; reflexivity | exact Hc ].
Qed.

(** X3. Whatever happens in a session, with handlers interleaving at their
    awaits or not, every call the hook makes has the same shape: a one-shot
    request asks for high accuracy with a 10 s timeout and a 30 s maximum
    age, a subscription for high accuracy with a 10 s timeout and a 5 s
    maximum age, and a timer has a 10 s period.  While the [driverId] prop
    stays the same, every read or write of the [drivers] table is for that
    [driverId].  When the prop changes during the session, every read or
    write is for the [driverId] of one of the closures that ran: never for
    an id the component was not rendered with, but a callback registered
    before the change keeps writing for the old one.  In both cases no
    closure writes when its [driverId] is undefined or empty, and none reads
    when it is undefined, empty or ["all"]. *)
Theorem X3_calls_keep_their_shape :
  forall (driverId : option string) (xs : list (World * Action))
         (tagged : list (option string * (World * Action))),
    Forall (call_allowed driverId) (log (mem (interleaved driverId xs))) /\
    Forall (call_allowed_in (closure_ids tagged)) (log (mem (rendered tagged))).
Proof.
  intros driverId xs tagged. split.
  - apply fold_act_calls_allowed. constructor.
  - apply fold_act_as_calls_allowed; [ | constructor ].
    intros x Hx. unfold closure_ids. apply in_map. exact Hx.
Qed.

(** A subscription registered for ["driver-42"] keeps writing for
    ["driver-42"] after the component was rendered for ["driver-7"]. *)
Example stale_closure_writes_for_old_driver :
  let s := rendered
             [(Some "driver-42", (sample_world, Fire Activate));
              (Some "driver-42", (sample_world, Resume 0%nat));
              (Some "driver-42", (sample_world, Resume 0%nat));
              (Some "driver-42", (sample_world, Resume 0%nat));
              (Some "driver-7", (second_world, Fire Mount));
              (Some "driver-7", (second_world, Resume 0%nat))] in
  isTracking (hook (mem s)) = true /\
  log (mem (act_as s (Some "driver-42", (second_world, Fire (WatchFix sample_fix)))))
  = log (mem s) ++ [DriversUpdate "driver-42" (latitude (coords sample_fix))
                      (longitude (coords sample_fix)) (now second_world)].
Proof. split; reflexivity. Qed.

(** ** A session with one activation *)

Section Single.

Variable driverId : option string.

















End Single.

(** A session with one [driverId] is a session in which every closure has
    that [driverId]. *)
Lemma interleaved_as_rendered (driverId : option string) (xs : list (World * Action)) :
  interleaved driverId xs = rendered (map (pair driverId) xs).
Proof.
  unfold interleaved, rendered. generalize (mkSession initialMem []).
  induction xs as [ | x xs IH ]; intros s; cbn; [ reflexivity | apply IH ].
Qed.





(** ** Deactivating while an activation is pending *)

(** X9. [stopTracking] does not cancel an activation that is waiting for
    its first fix.  When [startTracking] has been called and
    [stopTracking] runs before the sensor answers, the activation resumes
    afterwards and, if the sensor delivers a fix, ends with a subscription
    and a timer registered and the session active, although the user
    stopped it. *)
Theorem X9_stop_does_not_cancel_pending_activation :
  forall (driverId : option string) (p : GeolocationPosition) (w : World) (m : Mem),
    has_geolocation w = true ->
    oneShot w = OneShotFix p ->
    let s := fold_left (act driverId)
               [(w, Fire Activate); (w, Fire Deactivate);
                (w, Resume 0); (w, Resume 0); (w, Resume 0)]
               (mkSession m []) in
    isTracking (hook (mem s)) = true /\
    watchIdRef (hook (mem s)) = Some (fresh_watch w) /\
    intervalRef (hook (mem s)) = Some (fresh_timer w) /\
    currentLocation (hook (mem s)) = Some (locationOfPosition p) /\
    pending s = [].
Proof.
  intros driverId p w m Hgeo Hone.
  destruct w as [geo perms one upd sel t dg fw ft], m as [[loc trk err wr ir] l].
  cbn in Hgeo, Hone. subst geo one.
  cbv [fold_left act enabled fst snd mem pending].
  eff_cases; repeat split.
Qed.

Lemma X9_stop_does_not_cancel_pending_activation_witness :
  let s := fold_left (act (Some "driver-42"))
             [(sample_world, Fire Activate); (sample_world, Fire Deactivate);
              (sample_world, Resume 0); (sample_world, Resume 0);
              (sample_world, Resume 0)]
             (mkSession initialMem []) in
  isTracking (hook (mem s)) = true /\
  watchIdRef (hook (mem s)) = Some 7 /\
  intervalRef (hook (mem s)) = Some 9 /\
  currentLocation (hook (mem s)) = Some (locationOfPosition sample_fix) /\
  pending s = [].
Proof.
  exact (X9_stop_does_not_cancel_pending_activation (Some "driver-42") sample_fix
           sample_world initialMem eq_refl eq_refl).
Defined.

(** * The permission components *)

(** X10. [requestPermission] of the permission manager asks the sensor
    exactly when the sensor exists and the permission query did not answer
    ['denied']: for a denied permission it stops after the query, records
    ['denied'] and the blocked-permission text, and never sends the one-shot
    request; without a sensor it makes no call at all. *)
Theorem X10_manager_denied_permission_skips_sensor :
  forall (w : World) (s : PermissionManager.State),
    let s' := PermissionManager.requestPermission w s in
    filter is_sensor_call (PermissionManager.calls s')
      = filter is_sensor_call (PermissionManager.calls s) ++
        (if has_geolocation w && negb (answered_denied w)
         then [GetCurrentPosition PermissionManager.requestOptions]
         else []) /\
    (has_geolocation w = false -> PermissionManager.calls s' = PermissionManager.calls s) /\
    (has_geolocation w = true ->
     answered_denied w = true ->
     PermissionManager.calls s' = PermissionManager.calls s ++ [PermissionsQuery] /\
     PermissionManager.permissionStatus s' = Some denied /\
     PermissionManager.error s' = Some PermissionManager.msg_blocked_again).
Proof.
  intros w s. destruct s as [st err cs ls].
  unfold PermissionManager.requestPermission, PermissionManager.askSensor,
    PermissionManager.requestPermission_catch, answered_denied.
  destruct (has_geolocation w); cbn.
  - destruct (permissions w) as [[[ | | ] | e] | ]; cbn.
    all: repeat split; try discriminate.
    all: try (intros _; discriminate).
    all: destruct (oneShot w) as [p | [msg | code | tag]]; cbn;
      try (destruct (code =? PERMISSION_DENIED), (code =? POSITION_UNAVAILABLE),
             (code =? TIMEOUT)); cbn;
      rewrite ?filter_app; cbn; rewrite ?app_nil_r; reflexivity.
  - repeat split; try discriminate. rewrite app_nil_r. reflexivity.
Qed.

Lemma X10_manager_denied_permission_skips_sensor_witness :
  has_geolocation denied_world = true /\
  answered_denied denied_world = true /\
  PermissionManager.calls
    (PermissionManager.requestPermission denied_world PermissionManager.initial)
    = [PermissionsQuery].
Proof.
  pose proof (X10_manager_denied_permission_skips_sensor denied_world
                PermissionManager.initial) as [_ [_ Hdenied]].
  destruct (Hdenied eq_refl eq_refl) as [Hcalls _].
  split; [ reflexivity | split; [ reflexivity | exact Hcalls ] ].
Defined.

(** X11. While the manager offers its request button (the status is not
    ['granted']), a request ends in one of two ways: the status is
    ['granted'] and no error is shown, which happens exactly when the sensor
    exists, the permission query did not answer ['denied'] and the sensor
    delivered a fix; or an error is shown and the status is still not
    ['granted']. *)
Theorem X11_manager_grants_only_on_a_fix :
  forall (w : World) (s : PermissionManager.State),
    PermissionManager.requestButton s <> None ->
    let s' := PermissionManager.requestPermission w s in
    let delivered :=
      has_geolocation w && negb (answered_denied w) && is_fix (oneShot w) in
    (delivered = true ->
     PermissionManager.permissionStatus s' = Some granted /\
     PermissionManager.error s' = None) /\
    (delivered = false ->
     PermissionManager.permissionStatus s' <> Some granted /\
     PermissionManager.error s' <> None).
Proof.
  intros w s Hbutton. destruct s as [st err cs ls].
  unfold PermissionManager.requestButton in Hbutton. cbn in Hbutton.
  assert (Hst : st <> Some granted).
  { intros ->. apply Hbutton. reflexivity. }
  unfold PermissionManager.requestPermission, PermissionManager.askSensor,
    PermissionManager.requestPermission_catch, answered_denied.
  destruct (has_geolocation w); cbn.
  - destruct (permissions w) as [[[ | | ] | e] | ]; cbn.
    all: try (split; intros H; [ discriminate | split; discriminate ]).
    all: destruct (oneShot w) as [p | [msg | code | tag]]; cbn;
      try (destruct (code =? PERMISSION_DENIED), (code =? POSITION_UNAVAILABLE),
             (code =? TIMEOUT)); cbn;
      split; intros H; try discriminate; split;
      try reflexivity; try discriminate; try exact Hst.
  - split; intros H; [ discriminate | split; discriminate ].
Qed.

Lemma X11_manager_grants_only_on_a_fix_witness :
  PermissionManager.requestButton PermissionManager.initial <> None /\
  PermissionManager.permissionStatus
    (PermissionManager.requestPermission sample_world PermissionManager.initial)
    = Some granted.
Proof.
  assert (Hbutton : PermissionManager.requestButton PermissionManager.initial <> None)
    by discriminate.
  pose proof (X11_manager_grants_only_on_a_fix sample_world PermissionManager.initial
                Hbutton) as [Hok _].
  split; [ exact Hbutton | exact (proj1 (Hok eq_refl)) ].
Defined.

(** X12. After the permission check the tracker runs on mount, the start
    button of a specific driver is enabled exactly when the sensor exists
    and the permission query answered ['granted'].  In a browser without
    the Permissions API, or whose query fails or answers ['prompt'], the
    button is rendered disabled until the manager reports a grant. *)
Theorem X12_tracker_start_enabled_iff_granted :
  forall (w : World) (driverId : string) (s : Tracker.State),
    canTrack driverId = true ->
    Tracker.control driverId false (Tracker.checkPermission w s)
      = Some (StartButton (negb (has_geolocation w && answered_granted w))).
Proof.
  intros w driverId s Hcan.
  unfold Tracker.control, actionButtons, Tracker.checkPermission, answered_granted.
  rewrite Hcan.
  destruct (has_geolocation w); cbn; [ | reflexivity ].
  destruct (permissions w) as [[[ | | ] | e] | ]; reflexivity.
Qed.

Lemma X12_tracker_start_enabled_iff_granted_witness :
  canTrack "driver-42" = true /\
  Tracker.control "driver-42" false (Tracker.checkPermission sample_world Tracker.initial)
    = Some (StartButton false) /\
  Tracker.control "driver-42" false (Tracker.checkPermission no_sensor_world Tracker.initial)
    = Some (StartButton true).
Proof.
  split; [ reflexivity | split ].
  - exact (X12_tracker_start_enabled_iff_granted sample_world "driver-42"
             Tracker.initial eq_refl).
  - exact (X12_tracker_start_enabled_iff_granted no_sensor_world "driver-42"
             Tracker.initial eq_refl).
Defined.

(** X13. A grant obtained through the manager enables the start button
    unless the tracker itself recorded ['denied']: when the manager is
    rendered and its request is answered with a fix, the tracker's
    [hasPermission] becomes [true], and the start button of a specific
    driver is disabled exactly when the tracker's own status is ['denied'],
    which only its own check or its own change listener can alter. *)
Theorem X13_grant_through_manager_enables_start :
  forall (w : World) (driverId : string) (s : Tracker.State)
         (mg : PermissionManager.State),
    canTrack driverId = true ->
    Tracker.showsManager s = true ->
    has_geolocation w && negb (answered_denied w) && is_fix (oneShot w) = true ->
    let s' := Tracker.managerReports (PermissionManager.requestPermission w mg) s in
    Tracker.hasPermission s' = true /\
    Tracker.permissionStatus s' = Tracker.permissionStatus s /\
    Tracker.control driverId false s'
      = Some (StartButton (is_denied (Tracker.permissionStatus s))).
Proof.
  intros w driverId s mg Hcan Hshows Hok s'.
  assert (Hgranted : PermissionManager.permissionStatus
                       (PermissionManager.requestPermission w mg) = Some granted).
  { destruct mg as [st err cs ls].
    unfold PermissionManager.requestPermission, PermissionManager.askSensor,
      answered_denied in *.
    destruct (has_geolocation w); [ | discriminate ]. cbn in *.
    destruct (permissions w) as [[[ | | ] | e] | ]; cbn in *; try discriminate;
      destruct (oneShot w); try discriminate; reflexivity. }
  unfold s', Tracker.managerReports, PermissionManager.reported.
  rewrite Hshows, Hgranted. cbn.
  unfold Tracker.control, actionButtons. rewrite Hcan. cbn.
  repeat split.
Qed.

Lemma X13_grant_through_manager_enables_start_witness :
  let s := Tracker.mkState (Some prompt) false true in
  Tracker.control "driver-42" false s = Some (StartButton true) /\
  Tracker.control "driver-42" false
    (Tracker.managerReports
       (PermissionManager.requestPermission sample_world PermissionManager.initial) s)
    = Some (StartButton false).
Proof.
  pose proof (X13_grant_through_manager_enables_start sample_world "driver-42"
                (Tracker.mkState (Some prompt) false true) PermissionManager.initial
                eq_refl eq_refl eq_refl) as [_ [_ Hcontrol]].
  split; [ reflexivity | exact Hcontrol ].
Defined.

(** * The map *)

Module LiveMapFacts.

Import LiveMap.

Lemma on_map_app (l l' : list MapCall) :
  on_map (l ++ l') =
  fold_left (fun acc c =>
               match c with
               | NewMarker o _ _ _ _ => o :: acc
               | ShowPolyline o => o :: acc
               | HideOverlay o => remove Nat.eq_dec o acc
               | _ => acc
               end) l' (on_map l).
Proof. unfold on_map. apply fold_left_app. Qed.

(** What one round of the loop does to the bounds and to the maps. *)
Lemma place_bounds (st : Loop) (data : TrackingData) :
  bounds (place st data) = bounds st ++ points_of data /\
  hasValidLocations (place st data)
    = hasValidLocations st || nonempty (points_of data) /\
  polylinesRef (view (place st data)) = polylinesRef (view st) /\
  length (filter is_new_marker (calls (view (place st data))))
    = (length (filter is_new_marker (calls (view st))) + length (points_of data))%nat /\
  mapReady (view (place st data)) = mapReady (view st) /\
  mapLoaded (view (place st data)) = mapLoaded (view st).
Proof.
  destruct st as [v b h], data as [d [bk | ]]; unfold place, points_of;
    cbn [driver booking].
  - destruct (point (current_latitude d) (current_longitude d)) as [p1 | ],
      (point (pickup_latitude bk) (pickup_longitude bk)) as [p2 | ],
      (point (dropoff_latitude bk) (dropoff_longitude bk)) as [p3 | ];
      cbn; try destruct (directionsService v); cbn;
      rewrite ?filter_app, ?length_app, <- ?app_assoc, ?app_nil_r,
        ?orb_true_r, ?orb_false_r; cbn; repeat split; lia.
  - destruct (point (current_latitude d) (current_longitude d)) as [p1 | ];
      cbn; rewrite ?filter_app, ?length_app, ?app_nil_r, ?orb_true_r, ?orb_false_r;
      cbn; repeat split; lia.
Qed.


Lemma nonempty_app {A : Type} (l l' : list A) :
  nonempty (l ++ l') = nonempty l || nonempty l'.
Proof. destruct l; reflexivity. Qed.

Lemma places_bounds (l : list TrackingData) (st : Loop) :
  let st' := fold_left place l st in
  bounds st' = bounds st ++ flat_map points_of l /\
  hasValidLocations st'
    = hasValidLocations st || nonempty (flat_map points_of l) /\
  polylinesRef (view st') = polylinesRef (view st) /\
  length (filter is_new_marker (calls (view st')))
    = (length (filter is_new_marker (calls (view st))) + length (flat_map points_of l))%nat.
Proof.
  revert st. induction l as [ | data l IH ]; intros st; cbn.
  - rewrite app_nil_r, orb_false_r. repeat split. lia.
  - destruct (place_bounds st data) as [Hb [Hh [Hp [Hn _]]]].
    destruct (IH (place st data)) as [Ib [Ih [Ip In']]].
    rewrite Ib, Ih, Ip, In', Hb, Hh, Hp, Hn.
    rewrite nonempty_app, length_app, <- app_assoc, orb_assoc.
    repeat split. lia.
Qed.

(** X14. On a loaded map, [updateMapMarkers] creates one marker for every
    usable position of the selected tracking entries (a driver, pickup or
    dropoff position whose latitude and longitude are both truthy) and ends
    by fitting the map to exactly these positions; when there is none, for
    instance because the selected driver is not in the data or every stored
    coordinate is missing or [0], it ends with the default view instead:
    the fixed centre, zoom 15, hybrid map.  Before the map is loaded it does
    nothing. *)
Theorem X14_map_fits_the_usable_positions :
  forall (selected : string) (trackingData : list TrackingData) (v : View),
    let pts := flat_map points_of (filteredData selected trackingData) in
    let v' := updateMapMarkers selected trackingData v in
    (mapReady v && mapLoaded v = false -> v' = v) /\
    (mapReady v && mapLoaded v = true ->
     (exists drawn,
         calls v' = drawn ++
           (if nonempty pts then [FitBounds pts]
            else [SetCenter defaultCenter; SetZoom 15; SetMapTypeIdHybrid])) /\
     length (filter is_new_marker (calls v'))
       = (length (filter is_new_marker (calls v)) + length pts)%nat).
Proof.
  intros selected trackingData v pts v'. unfold v', updateMapMarkers. split.
  - intros H. destruct (mapReady v), (mapLoaded v); try discriminate; reflexivity.
  - intros H. destruct (mapReady v), (mapLoaded v); try discriminate. cbn [negb orb].
    destruct (places_bounds (filteredData selected trackingData)
                (mkLoop (clearOverlays v) [] false)) as [Hb [Hh [_ Hn]]].
    cbn [bounds hasValidLocations view app orb] in Hb, Hh, Hn.
    fold pts in Hb, Hh, Hn. rewrite Hb, Hh, andb_diag.
    assert (Hclear : length (filter is_new_marker (calls (clearOverlays v)))
                     = length (filter is_new_marker (calls v))).
    { unfold clearOverlays. cbn [calls]. rewrite !filter_app, !length_app.
      assert (Hhide : forall l : list (string * nat),
                 filter is_new_marker (map (fun kv => HideOverlay (snd kv)) l) = []).
      { induction l as [ | x l IHl ]; [ reflexivity | exact IHl ]. }
      rewrite !Hhide. cbn. lia. }
    set (st := fold_left place (filteredData selected trackingData)
                         (mkLoop (clearOverlays v) [] false)) in *.
    destruct (nonempty pts); cbn [add_call calls].
    + split; [ exists (calls (view st)); reflexivity | ].
      rewrite filter_app, length_app, Hn, Hclear. cbn. lia.
    + split; [ exists (calls (view st)); rewrite <- !app_assoc; reflexivity | ].
      rewrite !filter_app, !length_app, Hn, Hclear. cbn. lia.
Qed.

Lemma X14_map_fits_the_usable_positions_witness :
  mapReady loaded && mapLoaded loaded = true /\
  length (filter is_new_marker (calls (updateMapMarkers "all" sample_data loaded))) = 3%nat /\
  length (filter is_new_marker (calls (updateMapMarkers "d2" sample_data loaded))) = 0%nat.
Proof.
  pose proof (X14_map_fits_the_usable_positions "all" sample_data loaded) as [_ Hall].
  pose proof (X14_map_fits_the_usable_positions "d2" sample_data loaded) as [_ Hd2].
  split; [ reflexivity | split ].
  - exact (proj2 (Hall eq_refl)).
  - exact (proj2 (Hd2 eq_refl)).
Defined.


(** ** Overlays on the map and overlays on record *)

Lemma map_set_fresh (k : string) (v : nat) (l : list (string * nat)) :
  ~ In k (map fst l) -> map_set k v l = l ++ [(k, v)].
Proof.
  induction l as [ | [k' v'] l IH ]; intros Hnot; cbn.
  - reflexivity.
  - cbn in Hnot. destruct (String.eqb_spec k' k) as [-> | Hne].
    + exfalso. apply Hnot. left. reflexivity.
    + rewrite IH; [ reflexivity | ]. intros Hin. apply Hnot. right. exact Hin.
Qed.

Lemma map_set_values (k : string) (v : nat) (l : list (string * nat)) (x : nat) :
  In x (map snd (map_set k v l)) -> x = v \/ In x (map snd l).
Proof.
  induction l as [ | [k' v'] l IH ]; cbn.
  - intros [H | []]. left. symmetry. exact H.
  - destruct (String.eqb k' k); cbn.
    + intros [H | H]; [ left; symmetry; exact H | right; right; exact H ].
    + intros [H | H]; [ right; left; exact H | ].
      destruct (IH H) as [H' | H']; [ left; exact H' | right; right; exact H' ].
Qed.

Lemma map_set_twice_values (k : string) (a b : nat) (l : list (string * nat)) (x : nat) :
  In x (map snd (map_set k b (map_set k a l))) -> x = b \/ In x (map snd l).
Proof.
  induction l as [ | [k' v'] l IH ]; cbn.
  - rewrite String.eqb_refl. cbn. intros [H | []]. left. symmetry. exact H.
  - destruct (String.eqb k' k) eqn:Hk; cbn; rewrite Hk; cbn.
    + intros [H | H]; [ left; symmetry; exact H | right; right; exact H ].
    + intros [H | H]; [ right; left; exact H | ].
      destruct (IH H) as [H' | H']; [ left; exact H' | right; right; exact H' ].
Qed.

(** Hiding every overlay of a list that covers what is on the map leaves
    the map empty. *)
Lemma hide_all (ids : list (string * nat)) (acc : list nat) :
  incl acc (map snd ids) ->
  fold_left (fun acc c =>
               match c with
               | NewMarker o _ _ _ _ => o :: acc
               | ShowPolyline o => o :: acc
               | HideOverlay o => remove Nat.eq_dec o acc
               | _ => acc
               end) (map (fun kv => HideOverlay (snd kv)) ids) acc = [].
Proof.
  revert acc. induction ids as [ | [k o] ids IH ]; intros acc Hincl; cbn.
  - destruct acc as [ | x acc ]; [ reflexivity | ].
    exfalso. apply (Hincl x). left. reflexivity.
  - apply IH. intros x Hx. apply in_remove in Hx. destruct Hx as [Hx Hne].
    destruct (Hincl x Hx) as [Heq | Hin]; [ | exact Hin ].
    cbn in Heq. congruence.
Qed.

(** Hiding overlays other than [n] leaves [n] on the map. *)
Lemma hide_others (n : nat) (ids : list (string * nat)) (acc : list nat) :
  ~ In n (map snd ids) -> In n acc ->
  In n (fold_left (fun acc c =>
               match c with
               | NewMarker o _ _ _ _ => o :: acc
               | ShowPolyline o => o :: acc
               | HideOverlay o => remove Nat.eq_dec o acc
               | _ => acc
               end) (map (fun kv => HideOverlay (snd kv)) ids) acc).
Proof.
  revert acc. induction ids as [ | [k o] ids IH ]; intros acc Hnot Hin; cbn.
  - exact Hin.
  - cbn in Hnot. apply IH.
    + intros H. apply Hnot. right. exact H.
    + apply in_in_remove; [ | exact Hin ]. intros ->. apply Hnot. left. reflexivity.
Qed.

Lemma clearOverlays_empties_map (v : View) :
  incl (on_map (calls v)) (recorded v) ->
  on_map (calls (clearOverlays v)) = [].
Proof.
  intros Hincl. unfold clearOverlays. cbn [calls].
  rewrite <- map_app, on_map_app. apply hide_all.
  rewrite map_app. exact Hincl.
Qed.

Lemma addMarker_in_step (key : string) (position : LatLng) (icon : string) (size : Z)
    (title : string) (rest : list string) (st : Loop) :
  in_step st ->
  NoDup (map fst (markersRef (view st)) ++ key :: rest) ->
  let st' := addMarker key position icon size title st in
  in_step st' /\
  map fst (markersRef (view st')) = map fst (markersRef (view st)) ++ [key] /\
  NoDup (map fst (markersRef (view st')) ++ rest).
Proof.
  intros Hstep Hnodup st'.
  assert (Hfresh : ~ In key (map fst (markersRef (view st)))).
  { apply NoDup_remove_2 in Hnodup. intros Hin. apply Hnodup.
    apply in_or_app. left. exact Hin. }
  unfold st', addMarker, in_step in *. cbn [view markersRef calls].
  rewrite (map_set_fresh key _ _ Hfresh), on_map_app, !map_app, rev_app_distr.
  cbn. rewrite Hstep. repeat split.
  rewrite <- app_assoc. exact Hnodup.
Qed.


Ltac step_marker :=
  match goal with
  | Hs : in_step ?st,
    Hn : NoDup (map fst (markersRef (view ?st)) ++ ?k :: ?rest)
    |- context [addMarker ?k ?p ?i ?s ?t ?st] =>
      let S := fresh "Hstep" in
      let K := fresh "Hkeys" in
      let N := fresh "Hnodup" in
      destruct (addMarker_in_step k p i s t rest st Hs Hn) as [S [K N]];
      clear Hs Hn
  end.

Lemma place_in_step (rest : list string) (st : Loop) (data : TrackingData) :
  in_step st ->
  NoDup (map fst (markersRef (view st)) ++ keys_of data ++ rest) ->
  in_step (place st data) /\
  map fst (markersRef (view (place st data)))
    = map fst (markersRef (view st)) ++ keys_of data /\
  NoDup (map fst (markersRef (view (place st data))) ++ rest).
Proof.
  intros Hs Hn. destruct data as [d bk]. unfold place, keys_of in *.
  cbn [driver booking] in *.
  destruct (point (current_latitude d) (current_longitude d)) as [p1 | ];
    [ cbn [app] in Hn; step_marker | ];
    (destruct bk as [bk | ];
     [ destruct (point (pickup_latitude bk) (pickup_longitude bk)) as [p2 | ];
       [ cbn [app] in *; step_marker | ];
       (destruct (point (dropoff_latitude bk) (dropoff_longitude bk)) as [p3 | ];
        [ cbn [app] in *; step_marker | ])
     | ]);
    cbn [app] in *; rewrite ?app_nil_r in *;
    try match goal with
        | |- context [if directionsService ?v then _ else _] =>
            destruct (directionsService v)
        end;
    unfold in_step in *; cbn [view add_call calls markersRef] in *;
    rewrite ?on_map_app; cbn [fold_left];
    repeat match goal with
           | H : map fst _ = _ |- _ => rewrite H in *; clear H
           end;
    rewrite <- ?app_assoc in *; cbn [app] in *; rewrite ?app_nil_r in *;
    repeat split; assumption.
Qed.

Lemma places_in_step (l : list TrackingData) (st : Loop) :
  in_step st ->
  NoDup (map fst (markersRef (view st)) ++ flat_map keys_of l) ->
  in_step (fold_left place l st) /\
  map fst (markersRef (view (fold_left place l st)))
    = map fst (markersRef (view st)) ++ flat_map keys_of l.
Proof.
  revert st. induction l as [ | data l IH ]; intros st Hs Hn; cbn in *.
  - rewrite app_nil_r. split; [ exact Hs | reflexivity ].
  - destruct (place_in_step (flat_map keys_of l) st data Hs Hn) as [S1 [K1 N1]].
    destruct (IH (place st data) S1 N1) as [S2 K2].
    split; [ exact S2 | ]. rewrite K2, K1, <- app_assoc. reflexivity.
Qed.

(** X15. As long as no two markers of one update get the same key
    (distinct driver ids and distinct booking ids among the selected
    entries), [updateMapMarkers] keeps the map and its record in step: if
    every overlay on the map was on record before, then afterwards the
    markers on the map are exactly the recorded ones, one per key in the
    order of the data, and no polyline is left; so the next update takes
    all of them off again. *)
Theorem X15_update_keeps_markers_on_record :
  forall (selected : string) (trackingData : list TrackingData) (v : View),
    mapReady v && mapLoaded v = true ->
    incl (on_map (calls v)) (recorded v) ->
    NoDup (flat_map keys_of (filteredData selected trackingData)) ->
    let v' := updateMapMarkers selected trackingData v in
    on_map (calls v') = rev (map snd (markersRef v')) /\
    map fst (markersRef v') = flat_map keys_of (filteredData selected trackingData) /\
    polylinesRef v' = [] /\
    incl (on_map (calls v')) (recorded v').
Proof.
  intros selected trackingData v Hready Hcovered Hnodup v'.
  unfold v', updateMapMarkers.
  destruct (mapReady v), (mapLoaded v); try discriminate. cbn [negb orb].
  set (st0 := mkLoop (clearOverlays v) [] false).
  assert (Hs0 : in_step st0).
  { unfold in_step, st0. cbn [view]. rewrite (clearOverlays_empties_map v Hcovered).
    reflexivity. }
  destruct (places_in_step (filteredData selected trackingData) st0 Hs0 Hnodup)
    as [Hs Hk].
  destruct (places_bounds (filteredData selected trackingData) st0) as [_ [_ [Hp _]]].
  set (st := fold_left place (filteredData selected trackingData) st0) in *.
  cbn [st0 view clearOverlays markersRef polylinesRef map app] in Hk, Hp.
  unfold in_step in Hs.
  assert (Hfinal :
            on_map (calls (view st)) = rev (map snd (markersRef (view st))) /\
            map fst (markersRef (view st))
              = flat_map keys_of (filteredData selected trackingData) /\
            polylinesRef (view st) = [] /\
            incl (on_map (calls (view st))) (recorded (view st))).
  { repeat split; try assumption.
    unfold recorded. rewrite Hs, Hp, app_nil_r.
    intros x Hx. apply in_rev. exact Hx. }
  destruct (hasValidLocations st && nonempty (bounds st));
    unfold recorded in *; cbn [add_call calls markersRef polylinesRef];
    rewrite ?on_map_app; cbn [fold_left]; exact Hfinal.
Qed.


Lemma X15_update_keeps_markers_on_record_witness :
  mapReady loaded && mapLoaded loaded = true /\
  map fst (markersRef (updateMapMarkers "all" sample_data loaded))
    = ["driver-d1"; "pickup-b1"; "dropoff-b1"] /\
  on_map (calls (updateMapMarkers "all" sample_data loaded)) = [2; 1; 0]%nat.
Proof.
  assert (Hcovered : incl (on_map (calls loaded)) (recorded loaded)).
  { intros x Hx. destruct Hx. }
  assert (Hnodup : NoDup (flat_map keys_of (filteredData "all" sample_data))).
  { cbn. repeat constructor; cbn; intuition discriminate. }
  pose proof (X15_update_keeps_markers_on_record "all" sample_data loaded eq_refl
                Hcovered Hnodup) as [Hmap [Hkeys _]].
  split; [ reflexivity | split; [ exact Hkeys | ] ].
  rewrite Hmap. reflexivity.
Defined.

(** ** An overlay nobody can remove *)

Lemma addMarker_younger (n : nat) (key : string) (position : LatLng) (icon : string)
    (size : Z) (title : string) (st : Loop) :
  younger n st -> younger n (addMarker key position icon size title st).
Proof.
  intros [Hin [Hlt Hrec]]. unfold younger, addMarker, recorded in *.
  cbn [view calls next markersRef polylinesRef].
  rewrite on_map_app. cbn [fold_left]. split; [ right; exact Hin | ].
  split; [ lia | ].
  intros o Ho. apply in_app_or in Ho. destruct Ho as [Ho | Ho].
  - apply map_set_values in Ho. destruct Ho as [-> | Ho]; [ exact Hlt | ].
    apply Hrec. apply in_or_app. left. exact Ho.
  - apply Hrec. apply in_or_app. right. exact Ho.
Qed.

Lemma place_younger (n : nat) (st : Loop) (data : TrackingData) :
  younger n st -> younger n (place st data).
Proof.
  intros H. destruct data as [d bk]. unfold place. cbn [driver booking].
  destruct (point (current_latitude d) (current_longitude d)) as [p1 | ];
    [ apply (addMarker_younger n (String.append "driver-" (driver_id d)) p1
               (getMarkerIcon "driver" (status d)) 32 (full_name d)) in H | ];
    (destruct bk as [bk | ]; [ | exact H ]);
    (destruct (point (pickup_latitude bk) (pickup_longitude bk)) as [p2 | ];
     [ apply (addMarker_younger n (String.append "pickup-" (booking_id bk)) p2
                (getMarkerIcon "pickup" "active") 24 "Pickup") in H | ]);
    (destruct (point (dropoff_latitude bk) (dropoff_longitude bk)) as [p3 | ];
     [ apply (addMarker_younger n (String.append "dropoff-" (booking_id bk)) p3
                (getMarkerIcon "dropoff" "active") 24 "Dropoff") in H | ]);
    try exact H;
    match goal with
    | |- context [if directionsService ?v then _ else _] =>
        destruct (directionsService v); [ | exact H ]
    end;
    destruct H as [Hin [Hlt Hrec]]; unfold younger, recorded in *;
    cbn [view add_call calls next markersRef polylinesRef];
    rewrite on_map_app; cbn [fold_left]; repeat split; assumption.
Qed.

Lemma places_younger (n : nat) (l : list TrackingData) (st : Loop) :
  younger n st -> younger n (fold_left place l st).
Proof.
  revert st. induction l as [ | data l IH ]; intros st H; cbn.
  - exact H.
  - apply IH. apply place_younger. exact H.
Qed.

Lemma updateMapMarkers_orphan (n : nat) (selected : string)
    (trackingData : list TrackingData) (v : View) :
  orphan n v -> orphan n (updateMapMarkers selected trackingData v).
Proof.
  intros [Hin [Hnot Hlt]]. unfold updateMapMarkers.
  destruct (negb (mapReady v) || negb (mapLoaded v)); [ repeat split; assumption | ].
  assert (H0 : younger n (mkLoop (clearOverlays v) [] false)).
  { unfold younger, clearOverlays, recorded. cbn [view calls next markersRef polylinesRef app map].
    split; [ | split; [ exact Hlt | intros o [] ] ].
    rewrite <- map_app, on_map_app. apply hide_others; [ | exact Hin ].
    rewrite map_app. exact Hnot. }
  apply (places_younger n (filteredData selected trackingData)) in H0.
  destruct H0 as [Hin' [Hlt' Hrec']].
  assert (Hnot' : ~ In n (recorded
                            (view (fold_left place (filteredData selected trackingData)
                                     (mkLoop (clearOverlays v) [] false))))).
  { intros H. apply Hrec' in H. lia. }
  destruct (hasValidLocations _ && nonempty _);
    unfold orphan, recorded in *; cbn [add_call calls next markersRef polylinesRef];
    rewrite ?on_map_app; cbn [fold_left]; repeat split; assumption.
Qed.

Lemma onRouteAnswered_orphan (n : nat) (bookingId : string) (ok : bool) (v : View) :
  orphan n v -> orphan n (onRouteAnswered bookingId ok v).
Proof.
  intros [Hin [Hnot Hlt]]. unfold onRouteAnswered. destruct ok; [ | repeat split; assumption ].
  unfold orphan, recorded in *. cbn [calls next markersRef polylinesRef].
  rewrite on_map_app. cbn [fold_left]. split; [ right; exact Hin | ].
  split; [ | lia ].
  intros H. apply in_app_or in H. destruct H as [H | H].
  - apply Hnot. apply in_or_app. left. exact H.
  - apply map_set_values in H. destruct H as [H | H]; [ lia | ].
    apply Hnot. apply in_or_app. right. exact H.
Qed.

Lemma apply_orphan (n : nat) (ops : list Op) (v : View) :
  orphan n v -> orphan n (fold_left apply ops v).
Proof.
  revert v. induction ops as [ | op ops IH ]; intros v H; cbn.
  - exact H.
  - apply IH. destruct op as [selected trackingData | bookingId ok]; cbn.
    + unfold markersEffect.
      destruct (mapLoaded v && negb (Nat.eqb (length trackingData) 0)); [ | exact H ].
      apply updateMapMarkers_orphan. exact H.
    + apply onRouteAnswered_orphan. exact H.
Qed.

(** X16. Two route answers for the same booking with no update between
    them leave a polyline on the map for good.  The second answer replaces
    the first polyline in the record without taking it off the map, and
    from then on no update and no route answer removes it: it stays on the
    map and off the record whatever the component does afterwards. *)
Theorem X16_second_route_answer_orphans_the_first :
  forall (bookingId : string) (ops : list Op) (v : View),
    (forall o, In o (recorded v) -> (o < next v)%nat) ->
    let v2 := onRouteAnswered bookingId true (onRouteAnswered bookingId true v) in
    let v' := fold_left apply ops v2 in
    In (next v) (on_map (calls v')) /\ ~ In (next v) (recorded v').
Proof.
  intros bookingId ops v Hfresh v2 v'.
  assert (H2 : orphan (next v) v2).
  { unfold v2, onRouteAnswered, orphan, recorded.
    cbn [calls next markersRef polylinesRef].
    rewrite !on_map_app. cbn [fold_left].
    split; [ right; left; reflexivity | ]. split; [ | lia ].
    intros H. apply in_app_or in H. destruct H as [H | H].
    - assert (Hlt : (next v < next v)%nat); [ | lia ].
      apply Hfresh. unfold recorded. apply in_or_app. left. exact H.
    - apply map_set_twice_values in H. destruct H as [H | H]; [ lia | ].
      assert (Hlt : (next v < next v)%nat); [ | lia ].
      apply Hfresh. unfold recorded. apply in_or_app. right. exact H. }
  destruct (apply_orphan (next v) ops v2 H2) as [Hin [Hnot _]].
  split; assumption.
Qed.

Lemma X16_second_route_answer_orphans_the_first_witness :
  let v' := fold_left apply [Update "all" sample_data; Update "d1" sample_data]
              (onRouteAnswered "b1" true (onRouteAnswered "b1" true loaded)) in
  In 0%nat (on_map (calls v')) /\ ~ In 0%nat (recorded v').
Proof.
  assert (Hfresh : forall o, In o (recorded loaded) -> (o < next loaded)%nat).
  { intros o Ho. destruct Ho. }
  exact (X16_second_route_answer_orphans_the_first "b1"
           [Update "all" sample_data; Update "d1" sample_data] loaded Hfresh).
Defined.

End LiveMapFacts.

(** * Loading the map *)


